(** * ComfyS3: the S3 client and its save-path resolver

    A shallow embedding of [src/client_s3.py] (class [S3]): the prefix
    listing [get_files], the folder check [does_folder_exist], the marker
    write [create_folder] and the counter selection of [get_save_path],
    together with the Python built-ins and the [posixpath] functions they
    call.

    Modelling conventions.
    - A Python [str] is a [string]; a character is a code point below 256.
      Every statement about keys, templates and texts is about that
      domain. On it the decimal digits that [int()] reads are [0] to [9],
      and the white space that [int()] skips is narrower than the white
      space that [str.strip] removes.
    - [int] is [Z].
    - A Python exception is a value of [exn]; code that may raise returns
      a [result].
    - The bucket is the list of its keys in listing order; every request
      to the store may fail, as decided by a schedule of faults carried in
      the [world]. *)

From Stdlib Require Import String Ascii List ZArith Lia Bool Arith.
From Stdlib Require Import Decimal DecimalString DecimalPos Permutation.
Import ListNotations.

Open Scope list_scope.
Open Scope string_scope.

(** ** Exceptions *)

Inductive exn : Type :=
| ValueError
| KeyError
| IndexError.

Inductive result (A : Type) : Type :=
| Ok (a : A)
| Raise (e : exn).

Arguments Ok {A} a.
Arguments Raise {A} e.

Definition rbind {A B : Type} (m : result A) (k : A -> result B) : result B :=
  match m with
  | Ok a => k a
  | Raise e => Raise e
  end.

Notation "x <- m ;; k" := (rbind m (fun x => k))
  (at level 61, m at next level, right associativity).

(** ** Python [str] operations *)

Module PyStr.

(** [len(s)] *)
Definition len (s : string) : nat := String.length s.

(** [s[:n]] for [n >= 0] *)
Fixpoint take (n : nat) (s : string) {struct s} : string :=
  match s with
  | "" => ""
  | String c r =>
      match n with
      | O => ""
      | S k => String c (take k r)
      end
  end.

(** [s[n:]] for [n >= 0] *)
Fixpoint drop (n : nat) (s : string) {struct s} : string :=
  match s with
  | "" => ""
  | String _ r =>
      match n with
      | O => s
      | S k => drop k r
      end
  end.

(** [s[:-1]] *)
Definition all_but_last (s : string) : string := take (len s - 1) s.

(** [s[-1]]: raises [IndexError] on the empty string. *)
Fixpoint last_char (s : string) : result string :=
  match s with
  | "" => Raise IndexError
  | String c "" => Ok (String c "")
  | String _ r => last_char r
  end.

(** [s.startswith(p)] *)
Definition startswith (p s : string) : bool := String.prefix p s.

(** [s.endswith(p)] *)
Definition endswith (p s : string) : bool :=
  (len p <=? len s)%nat && (drop (len s - len p) s =? p).

(** [c in s] for a character [c] *)
Fixpoint has_char (c : ascii) (s : string) : bool :=
  match s with
  | "" => false
  | String a r => Ascii.eqb a c || has_char c r
  end.

(** [sub in s] *)
Fixpoint contains (sub s : string) : bool :=
  match s with
  | "" => String.prefix sub ""
  | String _ r => String.prefix sub s || contains sub r
  end.

(** [s.split(c)] for a one-character separator: never empty. *)
Fixpoint split (c : ascii) (s : string) : list string :=
  match s with
  | "" => [""]
  | String a r =>
      if Ascii.eqb a c then "" :: split c r
      else match split c r with
           | [] => [String a ""]
           | w :: ws => String a w :: ws
           end
  end.

(** [l[0]] of a list that [split] returned *)
Definition first (l : list string) : string := hd "" l.

(** [old.join(...)] is [String.concat]. The scan of [s.replace(old, new)]
    for a non-empty [old]: occurrences are found left to right and do not
    overlap; [skip] counts the characters of a match still to be passed. *)
Fixpoint replace_from (old new : string) (skip : nat) (s : string) : string :=
  match s with
  | "" => ""
  | String c r =>
      match skip with
      | S k => replace_from old new k r
      | O =>
          if String.prefix old s
          then new ++ replace_from old new (len old - 1) r
          else String c (replace_from old new 0 r)
      end
  end.

(** With an empty [old], [new] is put before every character and at the
    end. *)
Fixpoint intersperse (new s : string) : string :=
  match s with
  | "" => new
  | String c r => new ++ String c (intersperse new r)
  end.

(** [s.replace(old, new)] *)
Definition replace (old new s : string) : string :=
  match old with
  | "" => intersperse new s
  | _ => replace_from old new 0 s
  end.

(** [str(n)] for an [int]: decimal digits, a leading [-] when negative. *)
Definition str (n : Z) : string := NilZero.string_of_int (Z.to_int n).

(** White space as [str.isspace] and [str.strip] see it, among the code
    points below 256. *)
Definition is_space (c : ascii) : bool :=
  let n := nat_of_ascii c in
  ((9 <=? n) && (n <=? 13) || (28 <=? n) && (n <=? 32)
   || (n =? 133) || (n =? 160))%nat.

Definition digit_val (c : ascii) : option Z :=
  let n := nat_of_ascii c in
  if ((48 <=? n) && (n <=? 57))%nat then Some (Z.of_nat (n - 48)) else None.

Fixpoint lstrip (s : string) : string :=
  match s with
  | "" => ""
  | String c r => if is_space c then lstrip r else s
  end.

Fixpoint rstrip (s : string) : string :=
  match s with
  | "" => ""
  | String c r =>
      match rstrip r with
      | "" => if is_space c then "" else String c ""
      | r' => String c r'
      end
  end.

(** White space that [int()] skips around a numeral, among the code
    points below 256: the six of ASCII (tab to carriage return, and the
    blank), and U+0085 and U+00A0, which [int()] turns into blanks before
    it reads the text. U+001C to U+001F are white space for [str.strip]
    only: [int()] rejects a text that holds one. *)
Definition is_int_space (c : ascii) : bool :=
  let n := nat_of_ascii c in
  ((9 <=? n) && (n <=? 13) || (n =? 32) || (n =? 133) || (n =? 160))%nat.

Fixpoint int_lstrip (s : string) : string :=
  match s with
  | "" => ""
  | String c r => if is_int_space c then int_lstrip r else s
  end.

Fixpoint int_rstrip (s : string) : string :=
  match s with
  | "" => ""
  | String c r =>
      match int_rstrip r with
      | "" => if is_int_space c then "" else String c ""
      | r' => String c r'
      end
  end.

Fixpoint parse_digits (acc : Z) (s : string) : option Z :=
  match s with
  | "" => Some acc
  | String c r =>
      match digit_val c with
      | Some d => parse_digits (10 * acc + d) r
      | None => None
      end
  end.

(** [int(s)]: surrounding white space, an optional sign, then one or more
    decimal digits; anything else raises [ValueError]. The argument here
    never holds an underscore: it is a field of [split("_")]. A key of a
    bucket has at most 1024 bytes, so the limit that [int] puts on the
    number of digits (4300) is never reached. Among the code points below
    256 the decimal digits are [0] to [9] alone. *)
Definition py_int (s : string) : result Z :=
  let t := int_rstrip (int_lstrip s) in
  let '(neg, body) :=
    match t with
    | String "-" r => (true, r)
    | String "+" r => (false, r)
    | _ => (false, t)
    end in
  match body with
  | "" => Raise ValueError
  | _ =>
      match parse_digits 0 body with
      | Some v => Ok (if neg then (- v)%Z else v)
      | None => Raise ValueError
      end
  end.

(** Order of two-element tuples [(int, str)]: lexicographic. *)
Definition tuple_gt (a b : Z * string) : bool :=
  (fst b <? fst a)%Z || ((fst a =? fst b)%Z && String.ltb (snd b) (snd a)).

(** [max(it)]: the first largest item; [ValueError] when [it] is empty. *)
Definition py_max (l : list (Z * string)) : result (Z * string) :=
  match l with
  | [] => Raise ValueError
  | x :: xs => Ok (fold_left (fun m y => if tuple_gt y m then y else m) xs x)
  end.

(** [filter(f, it)] consumed to the end, for an [f] that may raise. *)
Fixpoint py_filter {A : Type} (f : A -> result bool) (l : list A)
  : result (list A) :=
  match l with
  | [] => Ok []
  | x :: xs =>
      b <- f x ;;
      ys <- py_filter f xs ;;
      Ok (if b then x :: ys else ys)
  end.

End PyStr.

(** ** [os.path] on POSIX ([posixpath])

    [basename], [dirname], [join] and [normpath] as the module [posixpath]
    defines them, with [/] as the only separator. *)

Module PosixPath.
Import PyStr.

(** [p.rfind('/') + 1] *)
Fixpoint rfind_succ (c : ascii) (p : string) : nat :=
  match p with
  | "" => 0
  | String a r =>
      match rfind_succ c r with
      | O => if Ascii.eqb a c then 1 else 0
      | S k => S (S k)
      end
  end.

(** [p.rstrip('/')] *)
Fixpoint rstrip_sep (p : string) : string :=
  match p with
  | "" => ""
  | String c r =>
      match rstrip_sep r with
      | "" => if Ascii.eqb c "/" then "" else String c ""
      | r' => String c r'
      end
  end.

Fixpoint repeat_sep (n : nat) : string :=
  match n with
  | O => ""
  | S k => String "/" (repeat_sep k)
  end.

Definition basename (p : string) : string := drop (rfind_succ "/" p) p.

Definition dirname (p : string) : string :=
  let head := take (rfind_succ "/" p) p in
  if negb (head =? "") && negb (head =? repeat_sep (len head))
  then rstrip_sep head
  else head.

(** [os.path.join(a, b)] *)
Definition join (a b : string) : string :=
  if startswith "/" b then b
  else if (a =? "") || endswith "/" a then a ++ b
  else a ++ "/" ++ b.

Definition is_nil {A : Type} (l : list A) : bool :=
  match l with [] => true | _ => false end.

(** One turn of the loop of [normpath] over the components. *)
Definition norm_step (initial_slashes : nat) (new_comps : list string)
    (comp : string) : list string :=
  if (comp =? "") || (comp =? ".") then new_comps
  else if negb (comp =? "..")
          || ((initial_slashes =? 0)%nat && is_nil new_comps)
          || (negb (is_nil new_comps) && (last new_comps "" =? ".."))
       then (new_comps ++ [comp])%list
       else removelast new_comps.

Definition normpath (path : string) : string :=
  if path =? "" then "."
  else
    let initial_slashes :=
      if startswith "/" path
      then if startswith "//" path && negb (startswith "///" path)
           then 2%nat else 1%nat
      else 0%nat in
    let comps := split "/" path in
    let new_comps := fold_left (norm_step initial_slashes) comps [] in
    let path := repeat_sep initial_slashes ++ String.concat "/" new_comps in
    if path =? "" then "." else path.

End PosixPath.

Import PyStr PosixPath.

(** ** The object store

    The bucket as the [boto3] resource presents it to the client:
    [objects.filter(Prefix=...)], [.limit(...)] and [put_object]. *)

Module Store.

(** Modelled from the spec: the module [logger] is not part of the sources
    at hand; store-level errors are logged, and the log keeps which
    operation reported one. *)
Inductive log_entry : Type :=
| FailedGetFiles
| FailedFolderExists
| FailedCreateFolder.

(** The bucket and its environment: the keys of the stored objects in
    listing order, the faults of the coming requests ([true]: the request
    raises; none left: no fault), the keys written so far and the error
    log. *)
Record world : Type := mkWorld {
  objects : list string;
  faults : list bool;
  writes : list string;
  errors : list log_entry
}.

(** One request to the store: tells whether it fails and consumes its
    fault. *)
Definition request (st : world) : bool * world :=
  match faults st with
  | [] => (false, st)
  | b :: fs => (b, mkWorld (objects st) fs (writes st) (errors st))
  end.

Definition log_error (e : log_entry) (st : world) : world :=
  mkWorld (objects st) (faults st) (writes st) (errors st ++ [e])%list.

(** [bucket.objects.filter(Prefix=prefix)] *)
Definition objects_filter (prefix : string) (st : world) : list string :=
  List.filter (startswith prefix) (objects st).

(** [.limit(n)] for [n >= 0]: the first [n] of them, or all when there
    are fewer. *)
Definition limit (n : Z) (keys : list string) : list string :=
  firstn (Z.to_nat n) keys.

(** Keys are unique and listed in ascending order: a new key goes before
    the first larger one, an existing key is overwritten in place. *)
Fixpoint insert_sorted (k : string) (keys : list string) : list string :=
  match keys with
  | [] => [k]
  | x :: xs => if String.ltb k x then k :: x :: xs else x :: insert_sorted k xs
  end.

Definition insert_key (k : string) (keys : list string) : list string :=
  if existsb (String.eqb k) keys then keys else insert_sorted k keys.

(** [bucket.put_object(Key=k)] *)
Definition put_object (k : string) (st : world) : world :=
  mkWorld (insert_key k (objects st)) (faults st)
          (writes st ++ [k])%list (errors st).

End Store.

Import Store.

(** ** [class S3] *)

Module ClientS3.

(** The fields of [self] that the methods below read. *)
Record S3 : Type := mkS3 {
  output_dir : string;
  list_limit_items : Z
}.

(** Truth value of a [bool | None]. *)
Definition truthy (b : option bool) : bool :=
  match b with
  | Some true => true
  | _ => false
  end.

(** [does_folder_exist]: [None] when the request raised. *)
Definition does_folder_exist (folder_name : string) (st : world)
  : option bool * world :=
  let '(failed, st) := request st in
  if failed then (None, log_error FailedFolderExists st)
  else
    let response := objects_filter folder_name st in
    (Some (existsb (startswith folder_name) response), st).

Definition create_folder (folder_name : string) (st : world) : world :=
  let '(failed, st) := request st in
  if failed then log_error FailedCreateFolder st
  else put_object (folder_name ++ "/") st.

Definition get_files (self : S3) (prefix : string) (st : world)
  : list string * world :=
  let '(found, st) := does_folder_exist prefix st in
  if truthy found then
    let '(failed, st) := request st in
    if failed then ([], log_error FailedGetFiles st)
    else
      let files := limit (list_limit_items self) (objects_filter prefix st) in
      let files := List.filter (fun f => negb (endswith "/" f)) files in
      (files, st)
  else ([], st).

(** The check of a folder followed by its creation when absent, as in
    [__init__] and at the head of [get_save_path]:
    [if not self.does_folder_exist(f): self.create_folder(f)]. *)
Definition ensure_folder (folder_name : string) (st : world) : world :=
  let '(found, st) := does_folder_exist folder_name st in
  if negb (truthy found) then create_folder folder_name st else st.

(** The closure [map_filename]; [filename_prefix] is the variable of
    [get_save_path] after substitution. *)
Definition map_filename (filename_prefix : string) (filename : string)
  : Z * string :=
  let prefix_len := len (basename filename_prefix) in
  let prefix := take (prefix_len + 1) filename in
  let digits :=
    match py_int (first (split "_" (drop (prefix_len + 1) filename))) with
    | Ok d => d
    | Raise _ => 0%Z
    end in
  (digits, prefix).

(** The closure [compute_vars]. *)
Definition compute_vars (input_str : string) (image_width image_height : Z)
  : string :=
  let input_str := replace "%width%" (str image_width) input_str in
  let input_str := replace "%height%" (str image_height) input_str in
  input_str.

(** [lambda a: a[1][:-1] == filename and a[1][-1] == "_"] *)
Definition eligible (filename : string) (a : Z * string) : result bool :=
  if all_but_last (snd a) =? filename
  then c <- last_char (snd a) ;; Ok (c =? "_")
  else Ok false.

(** The body of the [try] after the listing, and its handler. *)
Definition scan (filename_prefix filename : string) (files : list string)
  : result Z :=
  match
    (cands <- py_filter (eligible filename)
                (map (map_filename filename_prefix) files) ;;
     best <- py_max cands ;;
     Ok (fst best + 1)%Z)
  with
  | Ok counter => Ok counter
  | Raise ValueError => Ok 1%Z
  | Raise KeyError => Ok 1%Z
  | Raise e => Raise e
  end.

Record save_path : Type := mkSavePath {
  full_output_folder_s3 : string;
  sp_filename : string;
  counter : Z;
  subfolder : string;
  sp_filename_prefix : string
}.

Definition get_save_path (self : S3) (filename_prefix : string)
    (image_width image_height : Z) (st : world) : result save_path * world :=
  let filename_prefix := compute_vars filename_prefix image_width image_height in
  let subfolder := dirname (normpath filename_prefix) in
  let filename := basename (normpath filename_prefix) in
  let full_output_folder_s3 := join (output_dir self) subfolder in
  let st := ensure_folder full_output_folder_s3 st in
  let '(files, st) := get_files self full_output_folder_s3 st in
  (counter <- scan filename_prefix filename files ;;
   Ok (mkSavePath full_output_folder_s3 filename counter subfolder
                  filename_prefix),
   st).

End ClientS3.

Import ClientS3.

(** The keys that [get_save_path] scans: what [get_files] returns to it. *)
Definition listed (self : S3) (filename_prefix : string)
    (image_width image_height : Z) (st : world) : list string :=
  let filename_prefix := compute_vars filename_prefix image_width image_height in
  let folder := join (output_dir self) (dirname (normpath filename_prefix)) in
  fst (get_files self folder (ensure_folder folder st)).

(** The counter of a call, when it returned. *)
Definition returned_counter (o : result save_path * world) : option Z :=
  match fst o with
  | Ok r => Some (counter r)
  | Raise _ => None
  end.

(** The three values that [get_save_path] derives from the template: the
    substituted template, the base name and the output folder. *)
Definition resolved (filename_prefix : string) (iw ih : Z) : string :=
  compute_vars filename_prefix iw ih.

Definition base_name (filename_prefix : string) (iw ih : Z) : string :=
  basename (normpath (compute_vars filename_prefix iw ih)).

Definition output_folder (self : S3) (filename_prefix : string) (iw ih : Z)
  : string :=
  join (output_dir self) (dirname (normpath (compute_vars filename_prefix iw ih))).

(** A bucket without faults, writes or logged errors. *)
Definition quiet (keys : list string) : world := mkWorld keys [] [] [].

(** The text that [map_filename] hands to [int]:
    [filename[prefix_len + 1:].split("_")[0]]. *)
Definition counter_segment (filename_prefix key : string) : string :=
  first (split "_" (drop (len (basename filename_prefix) + 1) key)).

(** Whether the listing of [get_files] fails from [st]: the folder check
    raises, or it finds the folder and the request for the keys raises. *)
Definition listing_fails (prefix : string) (st : world) : bool :=
  match does_folder_exist prefix st with
  | (None, _) => true
  | (Some true, st') => fst (request st')
  | (Some false, _) => false
  end.

(** The substitution as the specification words it, to compare with
    [compute_vars]: one pass over the template in which every occurrence of
    [%width%] becomes the decimal form of the width and every occurrence of
    [%height%] that of the height. [skip] counts the characters of a
    replaced token still to be passed. *)
Fixpoint substitute_from (w h : string) (skip : nat) (s : string) : string :=
  match s with
  | "" => ""
  | String c r =>
      match skip with
      | S k => substitute_from w h k r
      | O =>
          if String.prefix "%width%" s
          then w ++ substitute_from w h 6 r
          else if String.prefix "%height%" s
          then h ++ substitute_from w h 7 r
          else String c (substitute_from w h 0 r)
      end
  end.

Definition substitute (template : string) (width height : Z) : string :=
  substitute_from (str width) (str height) 0 template.

(** The characters of a decimal numeral: the digits and the sign [-]. *)
Definition is_numeral_char (c : ascii) : bool :=
  match digit_val c with
  | Some _ => true
  | None => Ascii.eqb c "-"
  end.

Fixpoint numeral (s : string) : bool :=
  match s with
  | "" => true
  | String c r => is_numeral_char c && numeral r
  end.

Fixpoint no_numeral_char (t : string) : bool :=
  match t with
  | "" => true
  | String a r => negb (is_numeral_char a) && no_numeral_char r
  end.

(** Keys of a bucket are pairwise different. *)
Fixpoint distinct (keys : list string) : bool :=
  match keys with
  | [] => true
  | k :: ks => negb (existsb (String.eqb k) ks) && distinct ks
  end.

(** The number of objects stored under the key [k]. *)
Definition count_key (k : string) (keys : list string) : nat :=
  count_occ string_dec keys k.

(** None of the next [n] requests to the store fails. *)
Definition no_fault (n : nat) (st : world) : bool :=
  forallb negb (firstn n (faults st)).

(** [k] zeros: the padding in front of a counter. *)
Fixpoint zeros (k : nat) : string :=
  match k with
  | O => ""
  | S k' => String "0" (zeros k')
  end.

(** ** The construction of the client and the node [LoadImageS3] *)

Module Node.

(** [int(s)] for a text that may group its digits with single
    underscores, as the value of an environment variable may. *)
Fixpoint parse_grouped (after_digit : bool) (acc : Z) (s : string)
  : option Z :=
  match s with
  | "" => if after_digit then Some acc else None
  | String c r =>
      if Ascii.eqb c "_"
      then if after_digit then parse_grouped false acc r else None
      else match digit_val c with
           | Some d => parse_grouped true (10 * acc + d) r
           | None => None
           end
  end.

(** The number of digits of a text. *)
Fixpoint digit_count (s : string) : nat :=
  match s with
  | "" => 0
  | String c r =>
      match digit_val c with
      | Some _ => S (digit_count r)
      | None => digit_count r
      end
  end.

(** The most digits that [int] reads from a text, by default. *)
Definition max_str_digits : nat := 4300.

Definition int_of_text (s : string) : result Z :=
  let t := int_rstrip (int_lstrip s) in
  let '(neg, body) :=
    match t with
    | String "-" r => (true, r)
    | String "+" r => (false, r)
    | _ => (false, t)
    end in
  match parse_grouped false 0 body with
  | Some v =>
      if (max_str_digits <? digit_count body)%nat then Raise ValueError
      else Ok (if neg then (- v)%Z else v)
  | None => Raise ValueError
  end.

(** The environment variables that [__init__] reads; [None]: not set. *)
Record environ : Type := mkEnviron {
  S3_INPUT_DIR : option string;
  S3_OUTPUT_DIR : option string;
  LIST_LIMIT_ITEMS : option string
}.

(** [os.getenv(name, default)] *)
Definition getenv (value : option string) (default : string) : string :=
  match value with
  | Some v => v
  | None => default
  end.

(** An instance of [S3]: the fields read by the methods of the client,
    and [input_dir]. *)
Record S3_instance : Type := mkInstance {
  self_of : S3;
  input_dir : string
}.

(** [S3.__init__] after the client is built: the three settings, then the
    two folders. [int(os.getenv("LIST_LIMIT_ITEMS", 100))] may raise; the
    folders are only looked at when their names are not empty. A client
    that could not be built shows as requests that fail. *)
Definition init (env : environ) (st : world) : result S3_instance * world :=
  let input_dir := getenv (S3_INPUT_DIR env) "" in
  let output_dir := getenv (S3_OUTPUT_DIR env) "" in
  match
    match LIST_LIMIT_ITEMS env with
    | Some v => int_of_text v
    | None => Ok 100%Z
    end
  with
  | Raise e => (Raise e, st)
  | Ok list_limit_items =>
      let st :=
        if negb (input_dir =? "") then ensure_folder input_dir st else st in
      let st :=
        if negb (output_dir =? "") then ensure_folder output_dir st else st in
      (Ok (mkInstance (mkS3 output_dir list_limit_items) input_dir), st)
  end.

(** [get_s3_instance]: [None] when the constructor raised. *)
Definition get_s3_instance (env : environ) (st : world)
  : option S3_instance * world :=
  match init env st with
  | (Ok s3_instance, st) => (Some s3_instance, st)
  | (Raise _, st) => (None, st)
  end.

(** What a method of the node ends with: [AttributeError] for an attribute
    read on [None], [FileNotFoundError] for [os.makedirs] of the empty
    name, [OSError] for any other failure of the local disk, whatever its
    class, and [Failure] for an [Exception] raised with a message. *)
Inductive node_exn : Type :=
| AttributeError
| FileNotFoundError
| OSError
| Failure (err : string).

Inductive attempt (A : Type) : Type :=
| Done (a : A)
| Fails (e : node_exn).

Arguments Done {A} a.
Arguments Fails {A} e.

(** [sorted(l)] on strings: ascending by code points. *)
Fixpoint insert_str (x : string) (l : list string) : list string :=
  match l with
  | [] => [x]
  | y :: ys => if String.leb x y then x :: y :: ys else y :: insert_str x ys
  end.

Definition sorted (l : list string) : list string :=
  fold_right insert_str [] l.

(** [LoadImageS3.INPUT_TYPES]: the choices offered for [image]. The
    attribute [input_dir] is read outside the [try]. *)
Definition INPUT_TYPES (S3_INSTANCE : option S3_instance) (st : world)
  : attempt (list string) * world :=
  match S3_INSTANCE with
  | None => (Fails AttributeError, st)
  | Some inst =>
      let '(files, st) := get_files (self_of inst) (input_dir inst) st in
      (Done (sorted files), st)
  end.

(** The machine the node runs on: the store, the regular files and the
    directories of the local disk, and the faults of the coming operations
    on that disk ([true]: the operation fails; none left: no fault). A
    fault stands for any failure that the names below do not decide: a
    permission, a full disk, a name that the system refuses, a name that
    reaches a directory by another spelling. Names are compared as
    written. *)
Record machine : Type := mkMachine {
  store : world;
  local_files : list string;
  local_dirs : list string;
  disk_faults : list bool
}.

(** One operation on the local disk: tells whether it fails and consumes
    its fault. *)
Definition disk_op (m : machine) : bool * machine :=
  (hd false (disk_faults m),
   mkMachine (store m) (local_files m) (local_dirs m) (tl (disk_faults m))).

(** None of the next [n] operations on the local disk fails. *)
Definition no_disk_fault (n : nat) (m : machine) : bool :=
  forallb negb (firstn n (disk_faults m)).

Definition with_store (st : world) (m : machine) : machine :=
  mkMachine st (local_files m) (local_dirs m) (disk_faults m).

(** [os.path.exists(p)]: the empty path never exists. *)
Definition path_exists (p : string) (m : machine) : bool :=
  negb (p =? "")
  && (existsb (String.eqb p) (local_files m)
      || existsb (String.eqb p) (local_dirs m)).

(** [os.makedirs(p)] for a path that does not exist: the empty path
    raises [FileNotFoundError]; any other path is one operation on the
    disk. *)
Definition makedirs (p : string) (m : machine) : attempt unit * machine :=
  if p =? "" then (Fails FileNotFoundError, m)
  else
    let '(failed, m) := disk_op m in
    if failed then (Fails OSError, m)
    else (Done tt, mkMachine (store m) (local_files m) (p :: local_dirs m)
                             (disk_faults m)).

(** A local path that cannot be written as a regular file, whatever the
    disk does: it ends in [/], it is a directory, or its directory part is
    a regular file. *)
Definition unwritable (local_path : string) (m : machine) : bool :=
  endswith "/" local_path
  || existsb (String.eqb local_path) (local_dirs m)
  || existsb (String.eqb (dirname local_path)) (local_files m).

(** [S3.download_file]: the directory is made outside the [try]; any
    failure of the transfer is caught and gives [None]: a failing request,
    an empty key, a key that is not in the bucket, a local path that
    cannot be written, a fault of the disk. *)
Definition download_file (s3_path local_path : string) (m : machine)
  : attempt (option string) * machine :=
  let local_dir := dirname local_path in
  let blocked := unwritable local_path m in
  let '(made, m) :=
    if negb (path_exists local_dir m) then makedirs local_dir m
    else (Done tt, m) in
  match made with
  | Fails e => (Fails e, m)
  | Done _ =>
      let '(failed, st) := request (store m) in
      let m := with_store st m in
      if failed || (s3_path =? "")
         || negb (existsb (String.eqb s3_path) (objects st))
      then (Done None, m)
      else if blocked then (Done None, m)
      else
        let '(failed, m) := disk_op m in
        if failed then (Done None, m)
        else (Done (Some local_path),
              mkMachine (store m) (local_path :: local_files m)
                        (local_dirs m) (disk_faults m))
  end.

(** What [download_file] does before its [try]: nothing when the directory
    exists, one operation on the disk otherwise. *)
Definition prepared (local_path : string) (m : machine) : machine :=
  if path_exists (dirname local_path) m then m
  else mkMachine (store m) (local_files m)
                 (dirname local_path :: local_dirs m) (tl (disk_faults m)).

(** The fault that decides the write of [download_file]: the first when
    the directory exists, the second otherwise. *)
Definition write_fault (local_path : string) (m : machine) : bool :=
  hd false (disk_faults (prepared local_path m)).

(** [S3.upload_file]: the local file is read, sent, and removed when
    [move_file] is set; any failure is caught and gives [None]: a local
    path that is not a regular file, a fault of the disk, an empty key, a
    failing request. A failing [os.remove] gives [None] as well, with the
    key already in the bucket. *)
Definition upload_file (local_path s3_path : string) (move_file : bool)
    (m : machine) : option string * machine :=
  if negb (existsb (String.eqb local_path) (local_files m)) then (None, m)
  else
    let '(failed, m) := disk_op m in
    if failed then (None, m)
    else
      let '(failed, st) := request (store m) in
      if failed || (s3_path =? "") then (None, with_store st m)
      else
        let m := with_store (put_object s3_path st) m in
        if move_file
        then
          let '(failed, m) := disk_op m in
          if failed then (None, m)
          else (Some s3_path,
                mkMachine (store m)
                  (List.filter (fun p => negb (p =? local_path))
                               (local_files m))
                  (local_dirs m) (disk_faults m))
        else (Some s3_path, m).

(** [image.strip()] *)
Definition strip (s : string) : string := rstrip (lstrip s).

(** The head of [LoadImageS3.load_image] with [local_store] unset: the key
    is the stripped name, the local path is [LOCAL_FOLDER] followed by the
    name as given; the image is then opened from the path returned. *)
Definition load_image_path (S3_INSTANCE : option S3_instance)
    (image : string) (m : machine) : attempt string * machine :=
  let s3_path := strip image in
  match S3_INSTANCE with
  | None => (Fails AttributeError, m)
  | Some _ =>
      match download_file s3_path ("input/" ++ image) m with
      | (Fails e, m) => (Fails e, m)
      | (Done image_path, m) =>
          match image_path with
          | Some p =>
              if p =? ""
              then (Fails (Failure "Failed to download object from S3"), m)
              else (Done p, m)
          | None => (Fails (Failure "Failed to download object from S3"), m)
          end
      end
  end.

(** A list of strings in ascending order. *)
Fixpoint ascending (l : list string) : bool :=
  match l with
  | [] => true
  | x :: r =>
      match r with
      | [] => true
      | y :: _ => String.leb x y && ascending r
      end
  end.

End Node.

Import Node.

(** A component of a normalized path: not empty, without [/]. *)
Definition plain_comp (w : string) : Prop :=
  w <> "" /\ has_char "/" w = false.

(** All components but the last, each followed by [/]. *)
Fixpoint lead (comps : list string) : string :=
  match comps with
  | [] => ""
  | c :: cs =>
      match cs with
      | [] => ""
      | _ :: _ => c ++ "/" ++ lead cs
      end
  end.

(** ** Strings: prefixes, slices, characters *)

Section StringFacts.

Lemma append_nil_r (s : string) : s ++ "" = s.
Proof. induction s as [|c s IH]; simpl; [reflexivity | now rewrite IH]. Qed.

Lemma append_assoc (a b c : string) : (a ++ b) ++ c = a ++ (b ++ c).
Proof. induction a as [|x a IH]; simpl; [reflexivity | now rewrite IH]. Qed.

Lemma len_append (a b : string) : len (a ++ b) = (len a + len b)%nat.
Proof. induction a as [|x a IH]; simpl; [reflexivity | now rewrite IH]. Qed.

Lemma prefix_cons (a b : ascii) (p s : string) :
  String.prefix (String a p) (String b s) = Ascii.eqb a b && String.prefix p s.
Proof.
  simpl. destruct (ascii_dec a b) as [->|n].
  - now rewrite Ascii.eqb_refl.
  - apply Ascii.eqb_neq in n. now rewrite n.
Qed.

Lemma prefix_nil_r (p : string) : String.prefix p "" = true -> p = "".
Proof. destruct p; simpl; [reflexivity | discriminate]. Qed.

Lemma prefix_iff (p s : string) :
  String.prefix p s = true <-> exists r, s = p ++ r.
Proof.
  revert s. induction p as [|a p IH]; intros s.
  - split; [intros _; now exists s | intros _; now destruct s].
  - destruct s as [|b s].
    + split; [discriminate | intros [r Hr]; discriminate].
    + rewrite prefix_cons, andb_true_iff, Ascii.eqb_eq, IH. split.
      * intros [-> [r ->]]. now exists r.
      * intros [r Hr]. simpl in Hr. injection Hr as -> ->. split; [reflexivity | now exists r].
Qed.

Lemma prefix_append (p r : string) : String.prefix p (p ++ r) = true.
Proof. apply prefix_iff. now exists r. Qed.

Lemma prefix_both (a b k : string) :
  String.prefix a k = true -> String.prefix b k = true ->
  String.prefix a b = true \/ String.prefix b a = true.
Proof.
  revert b k. induction a as [|x a IH]; intros b k Ha Hb.
  - left. now destruct b.
  - destruct b as [|y b]; [right; reflexivity|].
    destruct k as [|z k]; [discriminate|].
    rewrite prefix_cons, andb_true_iff in Ha, Hb.
    destruct Ha as [Hx Ha], Hb as [Hy Hb].
    apply Ascii.eqb_eq in Hx, Hy. subst x y.
    rewrite !prefix_cons, Ascii.eqb_refl. simpl. now apply IH with k.
Qed.

Lemma has_char_append (c : ascii) (a b : string) :
  has_char c (a ++ b) = has_char c a || has_char c b.
Proof.
  induction a as [|x a IH]; simpl; [reflexivity|].
  now rewrite IH, orb_assoc.
Qed.

Lemma prefix_has_char (c : ascii) (a b : string) :
  String.prefix a b = true -> has_char c a = true -> has_char c b = true.
Proof.
  intros H Hc. apply prefix_iff in H as [r ->].
  now rewrite has_char_append, Hc.
Qed.

Lemma take_drop (n : nat) (s : string) : take n s ++ drop n s = s.
Proof.
  revert n. induction s as [|c s IH]; intros [|n]; simpl; try reflexivity.
  now rewrite IH.
Qed.

Lemma take_prefix (n : nat) (s : string) : String.prefix (take n s) s = true.
Proof. apply prefix_iff. exists (drop n s). symmetry. apply take_drop. Qed.

Lemma take_append (a b : string) : take (len a) (a ++ b) = a.
Proof.
  induction a as [|x a IH]; simpl.
  - now destruct b.
  - now rewrite IH.
Qed.

Lemma drop_append (a b : string) : drop (len a) (a ++ b) = b.
Proof.
  induction a as [|x a IH]; simpl; [now destruct b | exact IH].
Qed.

Lemma take_nil_inv (n : nat) (s : string) : take (S n) s = "" -> s = "".
Proof. destruct s; simpl; [reflexivity | discriminate]. Qed.

Lemma last_char_split (s c : string) :
  last_char s = Ok c -> s = all_but_last s ++ c.
Proof.
  unfold all_but_last. induction s as [|x s IH]; simpl; [discriminate|].
  destruct s as [|y s].
  - intros [= <-]. reflexivity.
  - intros H. specialize (IH H). simpl in IH |- *.
    rewrite Nat.sub_0_r in IH. now rewrite <- IH.
Qed.

Lemma last_char_append (f : string) (c : ascii) :
  last_char (f ++ String c "") = Ok (String c "").
Proof.
  induction f as [|x f IH]; simpl; [reflexivity|].
  rewrite IH. now destruct f.
Qed.

Lemma all_but_last_append (f : string) (c : ascii) :
  all_but_last (f ++ String c "") = f.
Proof.
  unfold all_but_last. rewrite len_append. simpl.
  replace (len f + 1 - 1)%nat with (len f) by lia. apply take_append.
Qed.

Lemma last_char_raise (s : string) (e : exn) :
  last_char s = Raise e -> s = "" /\ e = IndexError.
Proof.
  induction s as [|x s IH]; simpl.
  - intros [= <-]. now split.
  - destruct s as [|y s]; [discriminate|]. intros H.
    destruct (IH H) as [? _]. discriminate.
Qed.

End StringFacts.

(** ** Paths *)

Section PathFacts.

Lemma rfind_succ_zero (c : ascii) (p : string) :
  rfind_succ c p = 0%nat -> has_char c p = false.
Proof.
  induction p as [|a p IH]; simpl; [reflexivity|].
  destruct (rfind_succ c p); [|discriminate].
  destruct (Ascii.eqb a c); [discriminate|]. intros _. now apply IH.
Qed.

Lemma basename_no_sep (p : string) : has_char "/" (basename p) = false.
Proof.
  unfold basename. induction p as [|a p IH]; simpl; [reflexivity|].
  destruct (rfind_succ "/" p) as [|k] eqn:E.
  - apply rfind_succ_zero in E.
    destruct (Ascii.eqb a "/") eqn:Ea; simpl.
    + now destruct p.
    + now rewrite Ea, E.
  - exact IH.
Qed.

Lemma endswith_has_char (c : ascii) (a : string) :
  endswith (String c "") a = true -> has_char c a = true.
Proof.
  unfold endswith. rewrite andb_true_iff. intros [_ H].
  apply String.eqb_eq in H.
  rewrite <- (take_drop (len a - len (String c "")) a), has_char_append, H.
  simpl. now rewrite Ascii.eqb_refl, orb_true_r.
Qed.

Lemma join_has_sep (a b : string) :
  a <> "" -> has_char "/" (join a b) = true.
Proof.
  intros Ha. unfold join, startswith.
  destruct (String.prefix "/" b) eqn:Eb.
  - apply prefix_has_char with (a := "/"); [exact Eb | reflexivity].
  - destruct (a =? "") eqn:Ea; [apply String.eqb_eq in Ea; contradiction|].
    simpl. destruct (endswith "/" a) eqn:Ee.
    + rewrite has_char_append. now rewrite (endswith_has_char _ _ Ee).
    + rewrite !has_char_append. simpl. now rewrite orb_true_r.
Qed.

Lemma append_nil_inv (a b : string) : a ++ b = "" -> a = "" /\ b = "".
Proof. destruct a; simpl; [now split | discriminate]. Qed.

Lemma join_nil (a b : string) : join a b = "" -> a = "" /\ b = "".
Proof.
  unfold join, startswith. destruct (String.prefix "/" b) eqn:Eb.
  - intros ->. discriminate.
  - destruct ((a =? "") || endswith "/" a).
    + apply append_nil_inv.
    + intros H. apply append_nil_inv in H as [_ H]. discriminate.
Qed.

Lemma normpath_not_nil (p : string) : normpath p <> "".
Proof.
  unfold normpath. destruct (p =? ""); [discriminate|].
  match goal with |- (if ?x =? "" then _ else _) <> _ =>
    destruct (String.eqb_spec x "") as [E|E] end; [discriminate | exact E].
Qed.

Lemma rstrip_sep_nil (h : string) :
  rstrip_sep h = "" -> h = repeat_sep (len h).
Proof.
  induction h as [|c h IH]; simpl; [reflexivity|].
  destruct (rstrip_sep h); [|discriminate].
  destruct (Ascii.eqb_spec c "/") as [->|]; [|discriminate].
  intros _. now rewrite <- IH.
Qed.

Lemma drop_of_take_nil (i : nat) (n : string) : take i n = "" -> drop i n = n.
Proof. destruct n, i; simpl; try reflexivity; discriminate. Qed.

Lemma dirname_nil (n : string) : dirname n = "" -> basename n = n.
Proof.
  unfold dirname, basename.
  set (head := take (rfind_succ "/" n) n).
  destruct (String.eqb_spec head "") as [E|E]; simpl.
  - intros _. now apply drop_of_take_nil.
  - destruct (String.eqb_spec head (repeat_sep (len head))) as [F|F]; simpl.
    + intros H. contradiction.
    + intros H. apply rstrip_sep_nil in H. contradiction.
Qed.

(** The base name and the folder of a resolved template are not both
    empty. *)
Lemma folder_or_filename (out p : string) :
  join out (dirname (normpath p)) = "" -> basename (normpath p) <> "".
Proof.
  intros H. apply join_nil in H as [_ H]. apply dirname_nil in H.
  rewrite H. apply normpath_not_nil.
Qed.

End PathFacts.

(** ** The eligibility test and the scan *)

Section ScanFacts.

Lemma eligible_true_iff (filename : string) (a : Z * string) :
  eligible filename a = Ok true <-> snd a = filename ++ "_".
Proof.
  unfold eligible. split.
  - destruct (String.eqb_spec (all_but_last (snd a)) filename) as [E|E];
      [|discriminate].
    destruct (last_char (snd a)) as [c|e] eqn:L; simpl; [|discriminate].
    intros [= H]. apply String.eqb_eq in H. subst c.
    apply last_char_split in L. now rewrite E in L.
  - intros ->. rewrite all_but_last_append, String.eqb_refl.
    now rewrite last_char_append.
Qed.

Lemma eligible_raise (filename : string) (a : Z * string) (e : exn) :
  eligible filename a = Raise e -> snd a = "" /\ filename = "".
Proof.
  unfold eligible.
  destruct (String.eqb_spec (all_but_last (snd a)) filename) as [E|E];
    [|discriminate].
  destruct (last_char (snd a)) as [c|e'] eqn:L; simpl; [discriminate|].
  intros _. apply last_char_raise in L as [L _]. rewrite L in E.
  now split.
Qed.

(** An eligible key begins with the base name followed by [_]. *)
Lemma eligible_key_prefix (fp filename key : string) :
  eligible filename (map_filename fp key) = Ok true ->
  String.prefix (filename ++ "_") key = true.
Proof.
  intros H. apply eligible_true_iff in H. simpl in H.
  rewrite <- H. apply take_prefix.
Qed.

Lemma py_filter_none {A : Type} (f : A -> result bool) (l : list A) :
  (forall x, In x l -> f x = Ok false) -> py_filter f l = Ok [].
Proof.
  induction l as [|x l IH]; intros H; simpl; [reflexivity|].
  rewrite (H x (or_introl eq_refl)). simpl.
  rewrite IH; [reflexivity|]. intros y Hy. apply H. now right.
Qed.

Lemma py_filter_total {A : Type} (f : A -> result bool) (l : list A) :
  (forall x, In x l -> exists b, f x = Ok b) ->
  exists ys, py_filter f l = Ok ys.
Proof.
  induction l as [|x l IH]; intros H; simpl; [now exists []|].
  destruct (H x (or_introl eq_refl)) as [b ->]. simpl.
  destruct IH as [ys ->]; [intros y Hy; apply H; now right|]. simpl.
  eexists. reflexivity.
Qed.

Lemma py_filter_raise {A : Type} (f : A -> result bool) (l : list A) (e : exn) :
  py_filter f l = Raise e -> exists x, In x l /\ f x = Raise e.
Proof.
  induction l as [|x l IH]; simpl; [discriminate|].
  destruct (f x) as [b|e'] eqn:E; simpl.
  - destruct (py_filter f l) as [ys|e'']; simpl; [discriminate|].
    intros [= <-]. destruct (IH eq_refl) as [y [Hy Fy]].
    exists y. split; [now right | exact Fy].
  - intros [= <-]. exists x. split; [now left | exact E].
Qed.

(** The scan raises only when the eligibility test does. *)
Lemma scan_raise (fp filename : string) (files : list string) (e : exn) :
  scan fp filename files = Raise e ->
  exists key, In key files /\
    eligible filename (map_filename fp key) = Raise e.
Proof.
  unfold scan.
  destruct (py_filter (eligible filename) (map (map_filename fp) files))
    as [cands|e'] eqn:F; simpl.
  - destruct (py_max cands) as [best|e'] eqn:M; simpl; [discriminate|].
    destruct cands; simpl in M; [|discriminate].
    injection M as <-. discriminate.
  - intros H. assert (e' = e) as -> by (destruct e'; congruence).
    apply py_filter_raise in F as [a [Ha Fa]].
    apply in_map_iff in Ha as [key [<- Hk]]. now exists key.
Qed.

Lemma scan_no_eligible (fp filename : string) (files : list string) :
  (forall key, In key files ->
     eligible filename (map_filename fp key) = Ok false) ->
  scan fp filename files = Ok 1%Z.
Proof.
  intros H. unfold scan. rewrite py_filter_none; [reflexivity|].
  intros a Ha. apply in_map_iff in Ha as [key [<- Hk]]. now apply H.
Qed.

End ScanFacts.

(** ** The store operations *)

Section StoreFacts.

Lemma In_firstn {A : Type} (n : nat) (l : list A) (x : A) :
  In x (firstn n l) -> In x l.
Proof.
  revert l. induction n as [|n IH]; intros [|y l]; simpl; try tauto.
  intros [H|H]; [now left | right; now apply IH].
Qed.

Lemma request_objects (st : world) : objects (snd (request st)) = objects st.
Proof. unfold request. now destruct (faults st). Qed.

Lemma does_folder_exist_objects (p : string) (st : world) :
  objects (snd (does_folder_exist p st)) = objects st.
Proof.
  unfold does_folder_exist. pose proof (request_objects st) as R.
  destruct (request st) as [[|] st']; simpl in *; exact R.
Qed.

Lemma get_files_In (self : S3) (p : string) (st : world) (k : string) :
  In k (fst (get_files self p st)) ->
  startswith p k = true /\ endswith "/" k = false /\ In k (objects st).
Proof.
  unfold get_files.
  pose proof (does_folder_exist_objects p st) as D.
  destruct (does_folder_exist p st) as [found st1]. simpl in D.
  destruct (truthy found); [|intros []].
  pose proof (request_objects st1) as R.
  destruct (request st1) as [[|] st2]; simpl in *; [intros []|].
  intros H. apply filter_In in H as [H E].
  apply negb_true_iff in E. unfold limit in H.
  apply In_firstn in H. unfold objects_filter in H.
  apply filter_In in H as [H P]. rewrite R, D in H. now repeat split.
Qed.

Lemma get_files_length (self : S3) (p : string) (st : world) :
  (length (fst (get_files self p st)) <= Z.to_nat (list_limit_items self))%nat.
Proof.
  unfold get_files.
  destruct (does_folder_exist p st) as [found st1].
  destruct (truthy found); [|simpl; lia].
  destruct (request st1) as [[|] st2]; simpl; [lia|].
  etransitivity; [apply filter_length_le|].
  unfold limit. rewrite length_firstn. lia.
Qed.

Lemma get_files_no_match (self : S3) (p : string) (st : world) :
  (forall k, In k (objects st) -> startswith p k = false) ->
  fst (get_files self p st) = [].
Proof.
  intros H. destruct (fst (get_files self p st)) as [|k l] eqn:E;
    [reflexivity|].
  assert (In k (fst (get_files self p st))) as I by (rewrite E; now left).
  apply get_files_In in I as [P [_ I]]. rewrite (H k I) in P. discriminate.
Qed.

End StoreFacts.

(** ** [get_save_path] *)

Section SavePathFacts.

Lemma get_save_path_counter (self : S3) (fp : string) (iw ih : Z) (st : world) :
  returned_counter (get_save_path self fp iw ih st) =
  match scan (resolved fp iw ih) (base_name fp iw ih) (listed self fp iw ih st) with
  | Ok c => Some c
  | Raise _ => None
  end.
Proof.
  unfold returned_counter, get_save_path, listed, resolved, base_name.
  destruct (get_files self _ (ensure_folder _ st)) as [files st']. simpl.
  now destruct (scan _ _ files).
Qed.

Lemma listed_In (self : S3) (fp : string) (iw ih : Z) (st : world) (key : string) :
  In key (listed self fp iw ih st) ->
  startswith (output_folder self fp iw ih) key = true /\
  endswith "/" key = false.
Proof.
  unfold listed, output_folder. intros H.
  apply get_files_In in H as [P [E _]]. now split.
Qed.

(** No listed key makes the eligibility test raise. *)
Lemma listed_eligible_total (self : S3) (fp : string) (iw ih : Z) (st : world)
    (key : string) :
  In key (listed self fp iw ih st) ->
  exists b, eligible (base_name fp iw ih) (map_filename (resolved fp iw ih) key) = Ok b.
Proof.
  intros H. apply listed_In in H as [P _].
  destruct (eligible _ _) as [b|e] eqn:E; [now exists b|].
  apply eligible_raise in E as [K F]. simpl in K.
  rewrite Nat.add_1_r in K. apply take_nil_inv in K. subst key.
  apply prefix_nil_r in P. apply folder_or_filename in P. contradiction.
Qed.

Lemma get_save_path_scan_ok (self : S3) (fp : string) (iw ih : Z) (st : world) :
  exists c, scan (resolved fp iw ih) (base_name fp iw ih)
                 (listed self fp iw ih st) = Ok c.
Proof.
  destruct (scan _ _ _) as [c|e] eqn:E; [now exists c|].
  apply scan_raise in E as [key [Hk E]].
  destruct (listed_eligible_total _ _ _ _ _ _ Hk) as [b Hb]. congruence.
Qed.

(** [get_save_path] returns for every template and every world. *)
Lemma get_save_path_returns (self : S3) (fp : string) (iw ih : Z) (st : world) :
  exists r st', get_save_path self fp iw ih st = (Ok r, st').
Proof.
  destruct (get_save_path_scan_ok self fp iw ih st) as [c Hc].
  unfold get_save_path.
  unfold listed, resolved, base_name in Hc.
  destruct (get_files self _ (ensure_folder _ st)) as [files st']. simpl in Hc.
  rewrite Hc. simpl. eauto.
Qed.

Lemma compute_vars_img (iw ih : Z) : compute_vars "img" iw ih = "img".
Proof. reflexivity. Qed.

Lemma map_filename_ext (fp fp' key : string) :
  basename fp = basename fp' -> map_filename fp key = map_filename fp' key.
Proof. unfold map_filename. now intros ->. Qed.

Lemma scan_ext (fp fp' filename : string) (files : list string) :
  basename fp = basename fp' -> scan fp filename files = scan fp' filename files.
Proof.
  intros H. unfold scan.
  rewrite (map_ext _ _ (fun key => map_filename_ext fp fp' key H)).
  reflexivity.
Qed.

Lemma Permutation_3_inv {A : Type} (a b c : A) (l : list A) :
  Permutation l [a; b; c] ->
  l = [a; b; c] \/ l = [a; c; b] \/ l = [b; a; c] \/
  l = [b; c; a] \/ l = [c; a; b] \/ l = [c; b; a].
Proof.
  intros H. pose proof (Permutation_length H) as L.
  destruct l as [|x [|y [|z [|? ?]]]]; try discriminate L.
  assert (In x [a; b; c]) as I
    by (eapply Permutation_in; [exact H | now left]).
  destruct I as [<-|[<-|[<-|[]]]].
  - apply Permutation_cons_inv, Permutation_sym in H.
    apply Permutation_length_2_inv in H as [->| ->]; tauto.
  - apply (Permutation_cons_app_inv [a] [c]), Permutation_sym in H.
    apply Permutation_length_2_inv in H as [->| ->]; tauto.
  - apply (Permutation_cons_app_inv [a; b] []), Permutation_sym in H.
    apply Permutation_length_2_inv in H as [->| ->]; tauto.
Qed.

End SavePathFacts.

Section CounterFacts.

Lemma py_max_In (l : list (Z * string)) (m : Z * string) :
  py_max l = Ok m -> In m l.
Proof.
  destruct l as [|x xs]; simpl; [discriminate|]. intros [= <-].
  revert x. induction xs as [|y ys IH]; intros x; simpl; [now left|].
  destruct (IH (if tuple_gt y x then y else x)) as [H|H].
  - destruct (tuple_gt y x); [right; left | left]; exact H.
  - right. now right.
Qed.

Lemma py_filter_In {A : Type} (f : A -> result bool) (l ys : list A) (x : A) :
  py_filter f l = Ok ys -> In x ys -> In x l /\ f x = Ok true.
Proof.
  revert ys. induction l as [|a l IH]; simpl; intros ys.
  - intros [= <-] [].
  - destruct (f a) as [b|e] eqn:E; simpl; [|discriminate].
    destruct (py_filter f l) as [zs|e]; simpl; [|discriminate].
    intros [= <-] H. destruct b.
    + destruct H as [<-|H]; [split; [now left | exact E]|].
      destruct (IH zs eq_refl H). split; [now right | assumption].
    + destruct (IH zs eq_refl H). split; [now right | assumption].
Qed.

(** A counter other than 1 is one more than the field of an eligible
    key. *)
Lemma scan_counter_origin (fp filename : string) (files : list string) (c : Z) :
  scan fp filename files = Ok c ->
  c = 1%Z \/
  exists key, In key files /\
    eligible filename (map_filename fp key) = Ok true /\
    c = (fst (map_filename fp key) + 1)%Z.
Proof.
  unfold scan.
  destruct (py_filter (eligible filename) (map (map_filename fp) files))
    as [cands|e] eqn:F; simpl.
  - destruct (py_max cands) as [best|e] eqn:M; simpl.
    + intros [= <-]. right. apply py_max_In in M.
      destruct (py_filter_In _ _ _ _ F M) as [I E].
      apply in_map_iff in I as [key [<- I]]. now exists key.
    + destruct e; intros [= <-]; now left.
  - destruct e; intros [= <-]; now left.
Qed.

(** With no negative field among the eligible keys the counter is at
    least 1. *)
Lemma scan_at_least_one (fp filename : string) (files : list string) (c : Z) :
  (forall key, In key files ->
     eligible filename (map_filename fp key) = Ok true ->
     (0 <= fst (map_filename fp key))%Z) ->
  scan fp filename files = Ok c -> (1 <= c)%Z.
Proof.
  intros H S. apply scan_counter_origin in S as [->|[key [I [E ->]]]]; [lia|].
  specialize (H key I E). lia.
Qed.

Lemma get_append (a : string) (c : ascii) (r : string) :
  String.get (len a) (a ++ String c r) = Some c.
Proof. induction a as [|x a IH]; simpl; [reflexivity | exact IH]. Qed.

End CounterFacts.

Section MoreFacts.

Lemma len_take (n : nat) (s : string) : len (take n s) = Nat.min n (len s).
Proof.
  revert n. induction s as [|c s IH]; intros [|n]; simpl; try reflexivity.
  now rewrite IH.
Qed.

(** For a key longer than the base name followed by [_], being eligible
    fixes the length that [map_filename] cuts at. *)
Lemma eligible_cut (fp filename key : string) :
  eligible filename (map_filename fp key) = Ok true ->
  (len filename + 1 < len key)%nat ->
  len (basename fp) = len filename.
Proof.
  intros E L. apply eligible_true_iff in E. simpl in E.
  apply (f_equal len) in E. rewrite len_take, len_append in E.
  simpl in E. lia.
Qed.

Lemma listing_fails_empty (self : S3) (p : string) (st : world) :
  listing_fails p st = true -> fst (get_files self p st) = [].
Proof.
  unfold listing_fails, get_files.
  destruct (does_folder_exist p st) as [[[|]|] st1]; simpl;
    try reflexivity; try discriminate.
  destruct (request st1) as [[|] st2]; simpl; [reflexivity | discriminate].
Qed.

(** A failed listing is reported to the log. *)
Lemma listing_fails_logged (self : S3) (p : string) (st : world) :
  listing_fails p st = true ->
  In FailedFolderExists (errors (snd (get_files self p st))) \/
  In FailedGetFiles (errors (snd (get_files self p st))).
Proof.
  unfold listing_fails, get_files, does_folder_exist.
  destruct (request st) as [[|] st1]; cbn.
  - intros _. left. apply in_or_app. right. now left.
  - destruct (existsb _ _); cbn; [|discriminate].
    destruct (request st1) as [[|] st2]; cbn; [|discriminate].
    intros _. right. apply in_or_app. right. now left.
Qed.

Lemma get_save_path_world (self : S3) (fp : string) (iw ih : Z) (st : world) :
  snd (get_save_path self fp iw ih st) =
  snd (get_files self (output_folder self fp iw ih)
         (ensure_folder (output_folder self fp iw ih) st)).
Proof.
  unfold get_save_path, output_folder.
  now destruct (get_files self _ (ensure_folder _ st)).
Qed.

Lemma existsb_filter_false {A : Type} (f : A -> bool) (l : list A) :
  existsb f (List.filter f l) = false -> List.filter f l = [].
Proof.
  induction l as [|x l IH]; simpl; [reflexivity|].
  destruct (f x) eqn:E; simpl; [now rewrite E | exact IH].
Qed.

Lemma get_files_quiet (self : S3) (p : string) (st : world) :
  faults st = [] ->
  fst (get_files self p st) =
  List.filter (fun f => negb (endswith "/" f))
    (limit (list_limit_items self) (objects_filter p st)).
Proof.
  intros F. unfold get_files, does_folder_exist, request. rewrite F. simpl.
  destruct (existsb (startswith p) (objects_filter p st)) eqn:E; simpl.
  - rewrite F. reflexivity.
  - unfold objects_filter in *. rewrite (existsb_filter_false _ _ E).
    unfold limit. now rewrite firstn_nil.
Qed.

End MoreFacts.

(** ** Substitution of the template variables *)

Section ReplaceFacts.

Lemma replace_from_skip (old new : string) (k : nat) (s : string) :
  replace_from old new k s = replace_from old new 0 (drop k s).
Proof.
  revert k. induction s as [|c s IH]; intros [|k]; try reflexivity.
  cbn [replace_from drop]. apply IH.
Qed.

Lemma substitute_from_skip (w h : string) (k : nat) (s : string) :
  substitute_from w h k s = substitute_from w h 0 (drop k s).
Proof.
  revert k. induction s as [|c s IH]; intros [|k]; try reflexivity.
  cbn [substitute_from drop]. apply IH.
Qed.

Lemma replace_hit (old new s : string) :
  old <> "" -> String.prefix old s = true ->
  replace_from old new 0 s = new ++ replace_from old new 0 (drop (len old) s).
Proof.
  intros O P. destruct s as [|c r].
  - apply prefix_nil_r in P. contradiction.
  - cbn [replace_from]. rewrite P, replace_from_skip.
    destruct old as [|o old]; [contradiction|].
    simpl. now rewrite Nat.sub_0_r.
Qed.

Lemma replace_miss (old new : string) (c : ascii) (r : string) :
  String.prefix old (String c r) = false ->
  replace_from old new 0 (String c r) = String c (replace_from old new 0 r).
Proof. intros P. cbn [replace_from]. now rewrite P. Qed.

Lemma contains_tail (sub : string) (c : ascii) (r : string) :
  contains sub (String c r) = false ->
  String.prefix sub (String c r) = false /\ contains sub r = false.
Proof. cbn [contains]. apply orb_false_iff. Qed.

Lemma contains_head (sub s : string) :
  contains sub s = false -> String.prefix sub s = false.
Proof.
  destruct s as [|c r]; [exact (fun H => H)|].
  intros H. now apply contains_tail in H.
Qed.

Lemma contains_drop (sub : string) (k : nat) (s : string) :
  contains sub s = false -> contains sub (drop k s) = false.
Proof.
  revert k. induction s as [|c s IH]; intros [|k] H; try exact H.
  cbn [drop]. apply IH. now apply contains_tail in H.
Qed.

(** A string in which [old] does not occur is left as it is. *)
Lemma replace_absent (old new s : string) :
  contains old s = false -> replace_from old new 0 s = s.
Proof.
  induction s as [|c s IH]; intros H; [reflexivity|].
  apply contains_tail in H as [P H].
  rewrite replace_miss by exact P. now rewrite IH.
Qed.

Lemma len_drop (k : nat) (s : string) : len (drop k s) = (len s - k)%nat.
Proof.
  revert k. induction s as [|c s IH]; intros [|k]; try reflexivity.
  cbn [drop]. rewrite IH. reflexivity.
Qed.

Lemma prefix_append_same (a p s : string) :
  String.prefix (a ++ p) (a ++ s) = String.prefix p s.
Proof.
  induction a as [|x a IH]; [reflexivity|].
  cbn [append]. now rewrite prefix_cons, Ascii.eqb_refl, IH.
Qed.

Lemma numeral_char_not_percent (a : ascii) :
  is_numeral_char a = true -> Ascii.eqb "%" a = false.
Proof.
  destruct (Ascii.eqb_spec "%"%char a) as [<-|]; [discriminate | reflexivity].
Qed.

Lemma numeral_uint (d : uint) : numeral (NilEmpty.string_of_uint d) = true.
Proof. induction d; simpl; try reflexivity; exact IHd. Qed.

Lemma numeral_str (n : Z) : numeral (str n) = true.
Proof.
  unfold str, NilZero.string_of_int, NilZero.string_of_uint.
  destruct (Z.to_int n) as [d|d]; destruct d; try reflexivity;
    apply (numeral_uint (_ d)) || (cbn [numeral]; apply (numeral_uint (_ d))).
Qed.

Lemma str_not_nil (n : Z) : str n <> "".
Proof.
  unfold str, NilZero.string_of_int, NilZero.string_of_uint.
  destruct (Z.to_int n) as [d|d]; destruct d; discriminate.
Qed.

End ReplaceFacts.

Section Substitution.

Variables sw sh : string.
Hypothesis sw_numeral : numeral sw = true.
Hypothesis sw_not_nil : sw <> "".

Local Notation "'RW'" := (replace_from "%width%" sw 0).
Local Notation "'RH'" := (replace_from "%height%" sh 0).
Local Notation "'Sub'" := (substitute_from sw sh 0).

(** A numeral in front is passed over by the scan for a token. *)
Lemma replace_numeral (tok new d x : string) :
  numeral d = true ->
  replace_from (String "%" tok) new 0 (d ++ x) =
  d ++ replace_from (String "%" tok) new 0 x.
Proof.
  induction d as [|a d IH]; intros N; [reflexivity|].
  cbn [numeral] in N. apply andb_true_iff in N as [Na N].
  cbn [append]. rewrite replace_miss.
  - now rewrite IH.
  - now rewrite prefix_cons, numeral_char_not_percent.
Qed.

(** What [RW] returns begins with a character of the original, unless that
    character comes from the numeral. *)
Lemma RW_head (x : string) (a : ascii) (y : string) :
  RW x = String a y -> is_numeral_char a = false ->
  exists x', x = String a x' /\ y = RW x'.
Proof.
  destruct x as [|b x]; [discriminate|].
  destruct (String.prefix "%width%" (String b x)) eqn:P.
  - rewrite replace_hit by (discriminate || exact P).
    destruct sw as [|s0 sw']; [contradiction|].
    cbn [numeral] in sw_numeral. apply andb_true_iff in sw_numeral as [N _].
    cbn [append]. intros [= -> _] F. congruence.
  - rewrite replace_miss by exact P. intros [= -> <-] _. now exists x.
Qed.

Lemma RW_prefix_lift (t x : string) :
  no_numeral_char t = true ->
  String.prefix t (RW x) = true -> String.prefix t x = true.
Proof.
  revert x. induction t as [|a t IH]; intros x N P; [now destruct x|].
  cbn [no_numeral_char] in N. apply andb_true_iff in N as [Na N].
  apply negb_true_iff in Na.
  destruct (RW x) as [|b y] eqn:E; [discriminate|].
  rewrite prefix_cons in P. apply andb_true_iff in P as [Q P].
  apply Ascii.eqb_eq in Q. subst b.
  destruct (RW_head _ _ _ E Na) as [x' [-> ->]].
  rewrite prefix_cons, Ascii.eqb_refl. now apply IH.
Qed.

Lemma Sub_hit_width (s : string) :
  String.prefix "%width%" s = true -> Sub s = sw ++ Sub (drop 7 s).
Proof.
  destruct s as [|c r]; [discriminate|]. intros P.
  cbn [substitute_from]. now rewrite P, substitute_from_skip.
Qed.

Lemma Sub_hit_height (s : string) :
  String.prefix "%width%" s = false -> String.prefix "%height%" s = true ->
  Sub s = sh ++ Sub (drop 8 s).
Proof.
  destruct s as [|c r]; [discriminate|]. intros P Q.
  cbn [substitute_from]. now rewrite P, Q, substitute_from_skip.
Qed.

Lemma Sub_miss (c : ascii) (r : string) :
  String.prefix "%width%" (String c r) = false ->
  String.prefix "%height%" (String c r) = false ->
  Sub (String c r) = String c (Sub r).
Proof. intros P Q. cbn [substitute_from]. now rewrite P, Q. Qed.

(** [%width%] is not found inside [%height%] unless it starts at its
    closing [%]. *)
Lemma RW_over_height (r : string) :
  String.prefix "width%" r = false ->
  RW ("%height%" ++ r) = "%height%" ++ RW r.
Proof.
  intros P. cbn [append].
  do 7 (rewrite replace_miss by reflexivity).
  rewrite replace_miss; [reflexivity|].
  rewrite prefix_cons, P. reflexivity.
Qed.

(** The two replacements in a row agree with the one-pass substitution on
    every template in which no [%height%] closes on the [%] that opens a
    [%width%]. *)
Lemma two_passes_one_pass (n : nat) (s : string) :
  (len s <= n)%nat -> contains "%height%width%" s = false ->
  RH (RW s) = Sub s.
Proof.
  revert s. induction n as [|n IH]; intros s L C.
  - destruct s; [reflexivity | simpl in L; lia].
  - destruct s as [|c r]; [reflexivity|].
    destruct (String.prefix "%width%" (String c r)) eqn:PW.
    + rewrite (replace_hit "%width%") by (discriminate || exact PW).
      rewrite (replace_numeral "height%") by exact sw_numeral.
      rewrite Sub_hit_width by exact PW. f_equal.
      apply IH; [rewrite len_drop; simpl in *; lia | now apply contains_drop].
    + destruct (String.prefix "%height%" (String c r)) eqn:PH.
      * rewrite Sub_hit_height by assumption.
        pose proof PH as E. apply prefix_iff in E as [r' E]. rewrite E in *.
        assert (Q : String.prefix "width%" r' = false).
        { apply contains_head in C.
          change "%height%width%" with ("%height%" ++ "width%") in C.
          now rewrite prefix_append_same in C. }
        rewrite RW_over_height by exact Q.
        rewrite (replace_hit "%height%")
          by (discriminate || apply prefix_append).
        change (len "%height%") with 8%nat.
        change 8%nat with (len "%height%") at 1 2.
        rewrite !drop_append. f_equal.
        apply IH.
        -- apply (f_equal len) in E. rewrite len_append in E.
           simpl in E, L. lia.
        -- rewrite <- (drop_append "%height%" r'). now apply contains_drop.
      * rewrite Sub_miss by assumption.
        rewrite (replace_miss "%width%") by exact PW.
        apply contains_tail in C as [_ C].
        rewrite (replace_miss "%height%").
        -- f_equal. apply IH; [simpl in L; lia | exact C].
        -- destruct (String.prefix "%height%"
                       (String c (replace_from "%width%" sw 0 r))) eqn:F;
             [|reflexivity].
           rewrite prefix_cons in F. apply andb_true_iff in F as [Fc F].
           apply RW_prefix_lift in F; [|reflexivity].
           rewrite prefix_cons, Fc, F in PH. discriminate.
Qed.

End Substitution.

(** ** Folder provisioning *)

Section FolderFacts.

Lemma distinct_NoDup (keys : list string) :
  distinct keys = true <-> NoDup keys.
Proof.
  induction keys as [|k ks IH]; simpl.
  - split; [constructor | reflexivity].
  - rewrite andb_true_iff, negb_true_iff, IH. split.
    + intros [N D]. constructor; [|exact D]. intros I.
      assert (existsb (String.eqb k) ks = true) as E
        by (apply existsb_exists; exists k; split;
            [exact I | apply String.eqb_refl]).
      congruence.
    + intros H. inversion H as [|? ? N D]; subst. split; [|exact D].
      destruct (existsb (String.eqb k) ks) eqn:E; [|reflexivity].
      apply existsb_exists in E as [x [I E]].
      apply String.eqb_eq in E. subst x. contradiction.
Qed.

Lemma insert_sorted_perm (k : string) (keys : list string) :
  Permutation (k :: keys) (insert_sorted k keys).
Proof.
  induction keys as [|x xs IH]; simpl; [apply Permutation_refl|].
  destruct (String.ltb k x); [apply Permutation_refl|].
  eapply perm_trans; [apply perm_swap | now apply perm_skip].
Qed.

Lemma insert_key_In (k : string) (keys : list string) :
  In k (insert_key k keys).
Proof.
  unfold insert_key. destruct (existsb (String.eqb k) keys) eqn:E.
  - apply existsb_exists in E as [x [I E]].
    apply String.eqb_eq in E. now subst x.
  - apply (Permutation_in _ (insert_sorted_perm k keys)). now left.
Qed.

Lemma insert_key_NoDup (k : string) (keys : list string) :
  NoDup keys -> NoDup (insert_key k keys).
Proof.
  intros D. unfold insert_key.
  destruct (existsb (String.eqb k) keys) eqn:E; [exact D|].
  apply (Permutation_NoDup (insert_sorted_perm k keys)).
  constructor; [|exact D]. intros I.
  assert (existsb (String.eqb k) keys = true) as F
    by (apply existsb_exists; exists k; split;
        [exact I | apply String.eqb_refl]).
  congruence.
Qed.

(** A request keeps the objects, the writes and the log; it takes the
    first fault of the schedule. *)
Lemma request_eq (st : world) :
  request st =
  (hd false (faults st),
   mkWorld (objects st) (tl (faults st)) (writes st) (errors st)).
Proof. destruct st as [o [|b f] w e]; reflexivity. Qed.

Lemma ensure_folder_found (p : string) (st : world) :
  hd false (faults st) = false ->
  existsb (startswith p) (List.filter (startswith p) (objects st)) = true ->
  ensure_folder p st =
  mkWorld (objects st) (tl (faults st)) (writes st) (errors st).
Proof.
  intros F E. unfold ensure_folder, does_folder_exist, objects_filter.
  rewrite request_eq, F. cbn. now rewrite E.
Qed.

Lemma ensure_folder_created (p : string) (st : world) :
  hd false (faults st) = false ->
  hd false (tl (faults st)) = false ->
  existsb (startswith p) (List.filter (startswith p) (objects st)) = false ->
  ensure_folder p st =
  mkWorld (insert_key (p ++ "/") (objects st)) (tl (tl (faults st)))
          (writes st ++ [(p ++ "/")%string])%list (errors st).
Proof.
  intros F G E.
  unfold ensure_folder, does_folder_exist, objects_filter, create_folder.
  rewrite request_eq, F. cbn. rewrite E. cbn.
  rewrite request_eq. cbn. now rewrite G.
Qed.

Lemma existsb_filter_In {A : Type} (f : A -> bool) (l : list A) (x : A) :
  In x l -> f x = true -> existsb f (List.filter f l) = true.
Proof.
  intros I F. apply existsb_exists. exists x. split; [|exact F].
  apply filter_In. now split.
Qed.

(** Whatever the faults, a run adds at most the marker to the bucket. *)
Lemma ensure_folder_objects (p : string) (st : world) :
  objects (ensure_folder p st) = objects st \/
  objects (ensure_folder p st) = insert_key (p ++ "/") (objects st).
Proof.
  unfold ensure_folder, does_folder_exist, create_folder.
  rewrite request_eq.
  destruct (hd false (faults st)); cbn.
  - rewrite request_eq. cbn.
    destruct (hd false (tl (faults st))); cbn; [now left | now right].
  - destruct (existsb _ _); cbn; [now left|].
    rewrite request_eq. cbn.
    destruct (hd false (tl (faults st))); cbn; [now left | now right].
Qed.

Lemma ensure_folder_NoDup (p : string) (st : world) :
  NoDup (objects st) -> NoDup (objects (ensure_folder p st)).
Proof.
  intros D. destruct (ensure_folder_objects p st) as [-> | ->];
    [exact D | now apply insert_key_NoDup].
Qed.

Lemma no_fault_3 (st : world) :
  no_fault 3 st = true ->
  hd false (faults st) = false /\
  hd false (tl (faults st)) = false /\
  hd false (tl (tl (faults st))) = false.
Proof.
  unfold no_fault.
  destruct (faults st) as [|[|] [|[|] [|[|] f]]]; cbn;
    intros H; try discriminate H; now repeat split.
Qed.

End FolderFacts.

(** ** The claims *)

(** [int()] and [str.strip] differ on the separators U+001C to U+001F:
    [int()] rejects a text that holds one, [str.strip] removes it. Both
    skip U+00A0. A key whose field holds such a separator therefore counts
    as 0 and leaves the counter at 1. *)
Example py_int_white_space :
  py_int (String "028" "5") = Raise ValueError /\
  py_int (String "031" "5") = Raise ValueError /\
  py_int (String "160" "5") = Ok 5%Z /\
  py_int (String "133" " 5 ") = Ok 5%Z /\
  lstrip (String "028" "5") = "5" /\
  returned_counter
    (get_save_path (mkS3 "" 100) "img" 0 0
       (quiet [("img_" ++ String "028" "5_.png")%string]))
    = Some 1%Z /\
  int_of_text (String "028" "5") = Raise ValueError.
Proof. repeat split; reflexivity. Qed.

(** C1, as stated, fails: with the template [img], an empty output root
    and a bucket that holds exactly [img_1.png], [img_2.png] and
    [img_7.png], these three keys are listed and the counter returned is 1,
    not 8. *)
Lemma C1_counter_is_not_8 :
  listed (mkS3 "" 100) "img" 0 0 (quiet ["img_1.png"; "img_2.png"; "img_7.png"])
    = ["img_1.png"; "img_2.png"; "img_7.png"] /\
  returned_counter
    (get_save_path (mkS3 "" 100) "img" 0 0
       (quiet ["img_1.png"; "img_2.png"; "img_7.png"])) = Some 1%Z /\
  returned_counter
    (get_save_path (mkS3 "" 100) "img" 0 0
       (quiet ["img_1.png"; "img_2.png"; "img_7.png"])) <> Some 8%Z.
Proof. repeat split; [vm_compute; discriminate]. Qed.

(** C1, amended: resolving the template [img] when the listed keys are
    exactly [img_1.png], [img_2.png], [img_7.png] (in any order) returns
    counter 1, because the counter field of a key runs up to the next [_]
    and [1.png], [2.png], [7.png] are not numbers; when the listed keys are
    exactly [img_1_.png], [img_2_.png], [img_7_.png] it returns 8, the
    largest field plus one. *)
Theorem C1_counter_from_listing (self : S3) (iw ih : Z) (st : world) :
  (Permutation (listed self "img" iw ih st)
     ["img_1.png"; "img_2.png"; "img_7.png"] ->
   returned_counter (get_save_path self "img" iw ih st) = Some 1%Z) /\
  (Permutation (listed self "img" iw ih st)
     ["img_1_.png"; "img_2_.png"; "img_7_.png"] ->
   returned_counter (get_save_path self "img" iw ih st) = Some 8%Z).
Proof.
  rewrite get_save_path_counter. unfold resolved, base_name.
  rewrite compute_vars_img.
  split; intros H; apply Permutation_3_inv in H;
    repeat (destruct H as [H|H]); rewrite H; reflexivity.
Qed.

(** C1, amended, on two buckets under an empty output root. *)
Lemma C1_counter_from_listing_witness :
  returned_counter
    (get_save_path (mkS3 "" 100) "img" 0 0
       (quiet ["img_1.png"; "img_2.png"; "img_7.png"])) = Some 1%Z /\
  returned_counter
    (get_save_path (mkS3 "" 100) "img" 512 512
       (quiet ["img_1_.png"; "img_2_.png"; "img_7_.png"])) = Some 8%Z.
Proof.
  split.
  - apply (proj1 (C1_counter_from_listing (mkS3 "" 100) 0 0
              (quiet ["img_1.png"; "img_2.png"; "img_7.png"]))).
    vm_compute. apply Permutation_refl.
  - apply (proj2 (C1_counter_from_listing (mkS3 "" 100) 512 512
              (quiet ["img_1_.png"; "img_2_.png"; "img_7_.png"]))).
    vm_compute. apply Permutation_refl.
Defined.

(** C2: when the configured output root is not empty and the output
    folder does not begin with the base name followed by [_], every listed
    key begins with the output folder, no key that begins with the output
    folder is eligible (the test reads the leading characters of the whole
    key), and the counter returned is 1. *)
Theorem C2_full_keys_never_eligible (self : S3) (fp : string) (iw ih : Z)
    (st : world) :
  output_dir self <> "" ->
  startswith (base_name fp iw ih ++ "_") (output_folder self fp iw ih) = false ->
  (forall key, In key (listed self fp iw ih st) ->
     startswith (output_folder self fp iw ih) key = true) /\
  (forall key, startswith (output_folder self fp iw ih) key = true ->
     eligible (base_name fp iw ih) (map_filename (resolved fp iw ih) key)
       = Ok false) /\
  returned_counter (get_save_path self fp iw ih st) = Some 1%Z.
Proof.
  intros Hout Hpre.
  assert (Hsep : has_char "/" (output_folder self fp iw ih) = true)
    by (apply join_has_sep; exact Hout).
  assert (Hkeys : forall key, startswith (output_folder self fp iw ih) key = true ->
     eligible (base_name fp iw ih) (map_filename (resolved fp iw ih) key)
       = Ok false).
  { intros key P.
    destruct (eligible _ _) as [[|]|e] eqn:E; [| reflexivity |].
    - exfalso. apply eligible_key_prefix in E.
      destruct (prefix_both _ _ _ P E) as [Q|Q].
      + apply (prefix_has_char "/") in Q; [|exact Hsep].
        rewrite has_char_append in Q. unfold base_name in Q.
        rewrite basename_no_sep in Q. discriminate.
      + unfold startswith in Hpre. congruence.
    - exfalso. apply eligible_raise in E as [K _]. simpl in K.
      rewrite Nat.add_1_r in K. apply take_nil_inv in K. subst key.
      apply prefix_nil_r in P. rewrite P in Hsep. discriminate. }
  split; [intros key I; now apply listed_In in I|].
  split; [exact Hkeys|].
  rewrite get_save_path_counter, scan_no_eligible; [reflexivity|].
  intros key I. apply Hkeys. now apply listed_In in I.
Qed.

(** C2 with the output root [output]: two numbered outputs are stored
    under the folder and the counter is still 1. *)
Lemma C2_full_keys_never_eligible_witness :
  eligible "img" (map_filename "img" "output/img_00002_.png") = Ok false /\
  returned_counter
    (get_save_path (mkS3 "output" 100) "img" 0 0
       (quiet ["output/"; "output/img_00001_.png"; "output/img_00002_.png"]))
  = Some 1%Z.
Proof.
  pose proof (C2_full_keys_never_eligible (mkS3 "output" 100) "img" 0 0
    (quiet ["output/"; "output/img_00001_.png"; "output/img_00002_.png"])) as H.
  destruct H as [_ [E C]]; [discriminate | reflexivity |].
  split; [apply (E "output/img_00002_.png"); reflexivity | exact C].
Defined.

(** C3 asks that the counter returned by [get_save_path] be at least 1 for
    every template and listing. The code breaks it: [int] accepts a sign,
    so with the template [img] and the single key [img_-5_.png] that key is
    listed and eligible, its field is -5 and the counter returned is -4. *)
Theorem C3_counter_below_one :
  listed (mkS3 "" 100) "img" 0 0 (quiet ["img_-5_.png"]) = ["img_-5_.png"] /\
  eligible "img" (map_filename "img" "img_-5_.png") = Ok true /\
  returned_counter
    (get_save_path (mkS3 "" 100) "img" 0 0 (quiet ["img_-5_.png"]))
  = Some (-4)%Z.
Proof. repeat split. Qed.

(** C4: a key is eligible only if its leading characters, as many as the
    base name has, are the base name and the character right after them
    is [_]; for the base name [img1] the key [img10_5.png] is not
    eligible, whatever the template. *)
Theorem C4_eligible_prefix_then_underscore (fp : string) (iw ih : Z)
    (key : string) :
  (eligible (base_name fp iw ih) (map_filename (resolved fp iw ih) key) = Ok true ->
   take (len (base_name fp iw ih)) key = base_name fp iw ih /\
   String.get (len (base_name fp iw ih)) key = Some "_"%char) /\
  (base_name fp iw ih = "img1" ->
   eligible (base_name fp iw ih)
     (map_filename (resolved fp iw ih) "img10_5.png") = Ok false).
Proof.
  split.
  - intros E. apply eligible_key_prefix, prefix_iff in E as [r ->].
    rewrite append_assoc. split; [apply take_append | apply get_append].
  - intros B. rewrite B.
    destruct (eligible _ _) as [[|]|e] eqn:E; [| reflexivity |]; exfalso.
    + apply eligible_key_prefix in E. discriminate E.
    + apply eligible_raise in E as [_ E]. discriminate E.
Qed.

(** C4 on the key [img1_00005_.png] of the template [img1]. *)
Lemma C4_eligible_prefix_then_underscore_witness :
  (take 4 "img1_00005_.png" = "img1" /\
   String.get 4 "img1_00005_.png" = Some "_"%char) /\
  eligible "img1" (map_filename "img1" "img10_5.png") = Ok false.
Proof.
  split.
  - apply (proj1 (C4_eligible_prefix_then_underscore "img1" 0 0
                    "img1_00005_.png")). reflexivity.
  - apply (proj2 (C4_eligible_prefix_then_underscore "img1" 0 0
                    "img1_00005_.png")). reflexivity.
Defined.

(** C5, as stated, fails: with the template [img], an empty output root
    and a bucket that holds exactly [img_3.png] and [img_abc.png], both keys
    are listed and the counter returned is 1, not 4: the field [3.png] is
    no number either. *)
Lemma C5_counter_is_not_4 :
  listed (mkS3 "" 100) "img" 0 0 (quiet ["img_3.png"; "img_abc.png"])
    = ["img_3.png"; "img_abc.png"] /\
  fst (map_filename "img" "img_3.png") = 0%Z /\
  returned_counter
    (get_save_path (mkS3 "" 100) "img" 0 0 (quiet ["img_3.png"; "img_abc.png"]))
    = Some 1%Z /\
  returned_counter
    (get_save_path (mkS3 "" 100) "img" 0 0 (quiet ["img_3.png"; "img_abc.png"]))
    <> Some 4%Z.
Proof. repeat split; [vm_compute; discriminate]. Qed.

(** C5, amended: resolving a template with base name [img] when the listed
    keys are exactly [img_abc.png] and [img_3.png] returns counter 1, since
    the fields [abc.png] and [3.png] both fail to parse and count as 0; when
    the template itself ends in [img] and the listed keys are exactly
    [img_abc_.png] and [img_3_.png], the malformed key counts as 0, is
    outvoted by the parsed 3, and the counter is 4. *)
Theorem C5_malformed_key_counts_zero (self : S3) (fp : string) (iw ih : Z)
    (st : world) :
  base_name fp iw ih = "img" ->
  (Permutation (listed self fp iw ih st) ["img_abc.png"; "img_3.png"] ->
   returned_counter (get_save_path self fp iw ih st) = Some 1%Z) /\
  (basename (resolved fp iw ih) = "img" ->
   Permutation (listed self fp iw ih st) ["img_abc_.png"; "img_3_.png"] ->
   returned_counter (get_save_path self fp iw ih st) = Some 4%Z).
Proof.
  intros B. rewrite get_save_path_counter, B. split.
  - intros P.
    destruct (get_save_path_scan_ok self fp iw ih st) as [c Hc].
    rewrite B in Hc. rewrite Hc. f_equal.
    apply scan_counter_origin in Hc as [->|[key [I [E ->]]]]; [reflexivity|].
    apply (Permutation_in _ P) in I.
    assert (L : len (basename (resolved fp iw ih)) = 3%nat).
    { destruct I as [<-|[<-|[]]];
        apply eligible_cut in E; simpl; try lia; exact E. }
    unfold map_filename. rewrite L.
    destruct I as [<-|[<-|[]]]; reflexivity.
  - intros R P. rewrite (scan_ext _ "img") by exact R.
    apply Permutation_sym, Permutation_length_2_inv in P as [->| ->];
      reflexivity.
Qed.

(** C5, amended, on two buckets under an empty output root. *)
Lemma C5_malformed_key_counts_zero_witness :
  returned_counter
    (get_save_path (mkS3 "" 100) "img" 0 0 (quiet ["img_3.png"; "img_abc.png"]))
    = Some 1%Z /\
  returned_counter
    (get_save_path (mkS3 "" 100) "img" 0 0 (quiet ["img_3_.png"; "img_abc_.png"]))
    = Some 4%Z.
Proof.
  split.
  - apply (proj1 (C5_malformed_key_counts_zero (mkS3 "" 100) "img" 0 0
              (quiet ["img_3.png"; "img_abc.png"]) eq_refl)).
    vm_compute. apply perm_swap.
  - apply (proj2 (C5_malformed_key_counts_zero (mkS3 "" 100) "img" 0 0
              (quiet ["img_3_.png"; "img_abc_.png"]) eq_refl)).
    + reflexivity.
    + vm_compute. apply perm_swap.
Defined.

(** C6: a key whose counter field does not parse gets the counter 0 from
    [map_filename] instead of an exception; [get_save_path] returns a
    counter for every template and every world; and when no listed key is
    eligible that counter is 1. Keys are texts over the code points below
    256; [py_int] rejects exactly the fields that [int()] rejects there. *)
Theorem C6_parse_failure_tolerated (self : S3) (fp : string) (iw ih : Z)
    (st : world) :
  (forall key e,
     py_int (counter_segment (resolved fp iw ih) key) = Raise e ->
     map_filename (resolved fp iw ih) key =
       (0%Z, take (len (basename (resolved fp iw ih)) + 1) key)) /\
  (exists c, returned_counter (get_save_path self fp iw ih st) = Some c) /\
  ((forall key, In key (listed self fp iw ih st) ->
      eligible (base_name fp iw ih) (map_filename (resolved fp iw ih) key)
        <> Ok true) ->
   returned_counter (get_save_path self fp iw ih st) = Some 1%Z).
Proof.
  split; [|split].
  - intros key e H. unfold map_filename. unfold counter_segment in H.
    now rewrite H.
  - rewrite get_save_path_counter.
    destruct (get_save_path_scan_ok self fp iw ih st) as [c ->]. now exists c.
  - intros H. rewrite get_save_path_counter, scan_no_eligible; [reflexivity|].
    intros key I. specialize (H key I).
    destruct (listed_eligible_total _ _ _ _ _ _ I) as [[|] Hb]; congruence.
Qed.

(** C6 on a malformed key, on a key whose field starts with the separator
    U+001C (white space for [str.strip], not for [int()]), and on a bucket
    of foreign keys. *)
Lemma C6_parse_failure_tolerated_witness :
  map_filename "img" "img_abc_.png" = (0%Z, "img_") /\
  map_filename "img" ("img_" ++ String "028" "5_.png") = (0%Z, "img_") /\
  returned_counter
    (get_save_path (mkS3 "" 100) "img" 0 0 (quiet ["image_00002_.png"; "notes.txt"]))
    = Some 1%Z.
Proof.
  pose proof (C6_parse_failure_tolerated (mkS3 "" 100) "img" 0 0
    (quiet ["image_00002_.png"; "notes.txt"])) as [P [_ E]].
  split; [|split].
  - apply (P "img_abc_.png" ValueError). reflexivity.
  - apply (P ("img_" ++ String "028" "5_.png") ValueError). reflexivity.
  - apply E. intros key [<-|[<-|[]]]; discriminate.
Defined.

(** C7: when the listing of [get_files] fails (its folder check raises, or
    the request for the keys raises), [get_save_path] does not raise: the
    failure is logged, no key is listed and the counter returned is 1. *)
Theorem C7_failed_listing_gives_one (self : S3) (fp : string) (iw ih : Z)
    (st : world) :
  listing_fails (output_folder self fp iw ih)
    (ensure_folder (output_folder self fp iw ih) st) = true ->
  (In FailedFolderExists (errors (snd (get_save_path self fp iw ih st))) \/
   In FailedGetFiles (errors (snd (get_save_path self fp iw ih st)))) /\
  listed self fp iw ih st = [] /\
  returned_counter (get_save_path self fp iw ih st) = Some 1%Z.
Proof.
  intros H.
  assert (L : listed self fp iw ih st = [])
    by (apply listing_fails_empty; exact H).
  split; [|split; [exact L|]].
  - rewrite get_save_path_world. now apply listing_fails_logged.
  - rewrite get_save_path_counter, L. reflexivity.
Qed.

(** C7 on a bucket that holds [img_00007_.png]: the folder check of
    [get_files] fails in the first world, the request for the keys in the
    second. *)
Lemma C7_failed_listing_gives_one_witness :
  returned_counter
    (get_save_path (mkS3 "" 100) "img" 0 0
       (mkWorld ["img_00007_.png"] [false; true] [] [])) = Some 1%Z /\
  returned_counter
    (get_save_path (mkS3 "" 100) "img" 0 0
       (mkWorld ["img_00007_.png"] [false; false; true] [] [])) = Some 1%Z.
Proof.
  split.
  - apply (proj2 (proj2 (C7_failed_listing_gives_one (mkS3 "" 100) "img" 0 0
             (mkWorld ["img_00007_.png"] [false; true] [] []) eq_refl))).
  - apply (proj2 (proj2 (C7_failed_listing_gives_one (mkS3 "" 100) "img" 0 0
             (mkWorld ["img_00007_.png"] [false; false; true] [] [])
             eq_refl))).
Defined.

(** C8, as stated, fails: the folder marker [out/] is among the first keys
    that the store reports under the prefix [out], and [get_files] leaves
    it out of its result. *)
Lemma C8_marker_left_out :
  In "out/" (limit 100 (objects_filter "out" (quiet ["out/"; "out/a.png"]))) /\
  fst (get_files (mkS3 "" 100) "out" (quiet ["out/"; "out/a.png"]))
    = ["out/a.png"] /\
  ~ In "out/" (fst (get_files (mkS3 "" 100) "out" (quiet ["out/"; "out/a.png"]))).
Proof.
  split; [now left|]. split; [reflexivity|].
  intros [H|[]]. discriminate H.
Qed.

(** C8, amended: for a limit that is not negative, [get_files] returns at
    most [list_limit_items] keys, each a key of the bucket that starts with
    the prefix and does not end in [/] (folder markers are dropped by
    [get_files] itself, after the cap); it returns the empty list when no
    key starts with the prefix; and without store faults it returns exactly
    the keys not ending in [/] among the first [list_limit_items] keys
    under the prefix. *)
Theorem C8_get_files_listing (self : S3) (prefix : string) (st : world) :
  (0 <= list_limit_items self)%Z ->
  (Z.of_nat (length (fst (get_files self prefix st))) <= list_limit_items self)%Z /\
  (forall k, In k (fst (get_files self prefix st)) ->
     startswith prefix k = true /\ endswith "/" k = false /\ In k (objects st)) /\
  ((forall k, In k (objects st) -> startswith prefix k = false) ->
   fst (get_files self prefix st) = []) /\
  (faults st = [] ->
   fst (get_files self prefix st) =
   List.filter (fun f => negb (endswith "/" f))
     (limit (list_limit_items self) (objects_filter prefix st))).
Proof.
  intros L. repeat split.
  - pose proof (get_files_length self prefix st). lia.
  - now apply get_files_In in H.
  - now apply get_files_In in H.
  - now apply get_files_In in H.
  - apply get_files_no_match.
  - apply get_files_quiet.
Qed.

(** C8, amended, with a limit of 2 on a bucket of four keys. *)
Lemma C8_get_files_listing_witness :
  (Z.of_nat (length (fst (get_files (mkS3 "" 2) "out"
      (quiet ["in/x.png"; "out/"; "out/a.png"; "out/b.png"])))) <= 2)%Z /\
  fst (get_files (mkS3 "" 2) "tmp"
      (quiet ["in/x.png"; "out/"; "out/a.png"; "out/b.png"])) = [] /\
  fst (get_files (mkS3 "" 2) "out"
      (quiet ["in/x.png"; "out/"; "out/a.png"; "out/b.png"])) = ["out/a.png"].
Proof.
  pose proof (C8_get_files_listing (mkS3 "" 2) "out"
    (quiet ["in/x.png"; "out/"; "out/a.png"; "out/b.png"])) as [B [_ [_ Q]]];
    [simpl; lia|].
  pose proof (C8_get_files_listing (mkS3 "" 2) "tmp"
    (quiet ["in/x.png"; "out/"; "out/a.png"; "out/b.png"])) as [_ [_ [E _]]];
    [simpl; lia|].
  split; [exact B|]. split.
  - apply E. intros k [<-|[<-|[<-|[<-|[]]]]]; reflexivity.
  - rewrite Q; reflexivity.
Defined.

(** C9, as stated, fails: the template [%height%width%] holds an
    occurrence of [%height%], yet with width 512 and height 768 the result
    is [%height512]: the height is nowhere in it, and the one-pass
    substitution of every occurrence gives another string. *)
Lemma C9_height_occurrence_kept :
  startswith "%height%" "%height%width%" = true /\
  compute_vars "%height%width%" 512 768 = "%height512" /\
  contains (str 768) (compute_vars "%height%width%" 512 768) = false /\
  compute_vars "%height%width%" 512 768 <> substitute "%height%width%" 512 768.
Proof. repeat split. discriminate. Qed.

(** C9, amended: a template that holds neither [%width%] nor [%height%] is
    returned unchanged, so substituting again changes nothing; and in every
    template in which no [%height%] closes on the [%] that opens a
    [%width%] (the text [%height%width%] does not occur), every occurrence
    of [%width%] found from left to right is replaced by the decimal form
    of the width and every such occurrence of [%height%] by that of the
    height. *)
Theorem C9_substitution (template : string) (width height : Z) :
  (contains "%width%" template = false ->
   contains "%height%" template = false ->
   compute_vars template width height = template /\
   compute_vars (compute_vars template width height) width height
     = compute_vars template width height) /\
  (contains "%height%width%" template = false ->
   compute_vars template width height = substitute template width height).
Proof.
  split.
  - intros W H.
    assert (E : compute_vars template width height = template).
    { unfold compute_vars. cbn [replace].
      rewrite (replace_absent "%width%") by exact W.
      now apply replace_absent. }
    split; [exact E | now rewrite !E].
  - intros C. unfold compute_vars, substitute. cbn [replace].
    apply (two_passes_one_pass (str width) (str height) (numeral_str width)
             (str_not_nil width) (len template)); [lia | exact C].
Qed.

(** C9, amended, on a template without tokens and on one with three. *)
Lemma C9_substitution_witness :
  compute_vars "out/img" 512 768 = "out/img" /\
  compute_vars "%width%x%height%/img_%width%" 512 768
    = substitute "%width%x%height%/img_%width%" 512 768.
Proof.
  split.
  - apply (proj1 (C9_substitution "out/img" 512 768)); reflexivity.
  - apply (proj2 (C9_substitution "%width%x%height%/img_%width%" 512 768)).
    reflexivity.
Defined.

(** C10: on a bucket with pairwise different keys, running the folder
    check and the creation when absent twice on the same prefix leaves at
    most one object under the marker key, whatever the store does; and when
    no request to the store fails, the second run writes nothing, leaves the
    bucket as the first run left it, and neither run logs an error. *)
Theorem C10_ensure_folder_idempotent (prefix : string) (st : world) :
  distinct (objects st) = true ->
  (count_key (prefix ++ "/")
     (objects (ensure_folder prefix (ensure_folder prefix st))) <= 1)%nat /\
  (no_fault 3 st = true ->
   writes (ensure_folder prefix (ensure_folder prefix st))
     = writes (ensure_folder prefix st) /\
   objects (ensure_folder prefix (ensure_folder prefix st))
     = objects (ensure_folder prefix st) /\
   errors (ensure_folder prefix (ensure_folder prefix st)) = errors st).
Proof.
  intros D. apply distinct_NoDup in D. split.
  - apply NoDup_count_occ. now do 2 apply ensure_folder_NoDup.
  - intros N. apply no_fault_3 in N as [F1 [F2 F3]].
    destruct (existsb (startswith prefix)
                (List.filter (startswith prefix) (objects st))) eqn:E.
    + rewrite (ensure_folder_found prefix st F1 E).
      rewrite ensure_folder_found; [now repeat split | exact F2 | exact E].
    + rewrite (ensure_folder_created prefix st F1 F2 E).
      rewrite ensure_folder_found; [now repeat split | exact F3 |].
      cbn. apply existsb_filter_In with (x := prefix ++ "/").
      * apply insert_key_In.
      * apply prefix_append.
Qed.

(** C10 on a bucket without the folder [output/sub]: the first run writes
    the marker, the second writes nothing. *)
Lemma C10_ensure_folder_idempotent_witness :
  (count_key "output/sub/"
     (objects (ensure_folder "output/sub"
        (ensure_folder "output/sub" (quiet ["output/"; "output/a.png"]))))
   <= 1)%nat /\
  writes (ensure_folder "output/sub"
            (ensure_folder "output/sub" (quiet ["output/"; "output/a.png"])))
    = ["output/sub/"] /\
  objects (ensure_folder "output/sub"
            (ensure_folder "output/sub" (quiet ["output/"; "output/a.png"])))
    = ["output/"; "output/a.png"; "output/sub/"].
Proof.
  pose proof (C10_ensure_folder_idempotent "output/sub"
    (quiet ["output/"; "output/a.png"]) eq_refl) as [C H].
  destruct (H eq_refl) as [W [O _]].
  split; [exact C|]. split; [rewrite W | rewrite O]; reflexivity.
Defined.

(** ** Further properties: the counter *)

Section CounterMore.

Lemma tuple_gt_false (y m : Z * string) :
  tuple_gt y m = false -> (fst y <= fst m)%Z.
Proof.
  unfold tuple_gt. intros H. apply orb_false_iff in H as [H _].
  apply Z.ltb_ge in H. exact H.
Qed.

Lemma tuple_gt_true (y m : Z * string) :
  tuple_gt y m = true -> (fst m <= fst y)%Z.
Proof.
  unfold tuple_gt. intros H. apply orb_true_iff in H as [H|H].
  - apply Z.ltb_lt in H. lia.
  - apply andb_true_iff in H as [H _]. apply Z.eqb_eq in H. lia.
Qed.

Lemma fold_max_init (xs : list (Z * string)) (x : Z * string) :
  (fst x <= fst (fold_left (fun m z => if tuple_gt z m then z else m) xs x))%Z.
Proof.
  revert x. induction xs as [|z xs IH]; intros x; simpl; [lia|].
  destruct (tuple_gt z x) eqn:G; [|apply IH].
  apply tuple_gt_true in G. etransitivity; [exact G | apply IH].
Qed.

Lemma fold_max_upper (xs : list (Z * string)) (x y : Z * string) :
  In y xs ->
  (fst y <= fst (fold_left (fun m z => if tuple_gt z m then z else m) xs x))%Z.
Proof.
  revert x. induction xs as [|z xs IH]; intros x H; simpl; [destruct H|].
  destruct H as [->|H]; [|now apply IH].
  destruct (tuple_gt y x) eqn:G; [apply fold_max_init|].
  apply tuple_gt_false in G. etransitivity; [exact G | apply fold_max_init].
Qed.

(** No item is larger in its first component than the one [max] picks. *)
Lemma py_max_upper (l : list (Z * string)) (m y : Z * string) :
  py_max l = Ok m -> In y l -> (fst y <= fst m)%Z.
Proof.
  destruct l as [|x xs]; simpl; [discriminate|]. intros [= <-] H.
  destruct H as [->|H]; [apply fold_max_init | now apply fold_max_upper].
Qed.

Lemma py_filter_keeps {A : Type} (f : A -> result bool) (l ys : list A) (x : A) :
  py_filter f l = Ok ys -> In x l -> f x = Ok true -> In x ys.
Proof.
  revert ys. induction l as [|a l IH]; simpl; intros ys F I T; [destruct I|].
  destruct (f a) as [b|e] eqn:E; simpl in F; [|discriminate].
  destruct (py_filter f l) as [zs|e]; simpl in F; [|discriminate].
  injection F as <-. destruct I as [->|I].
  - rewrite T in E. injection E as <-. now left.
  - specialize (IH zs eq_refl I T). destruct b; [now right | exact IH].
Qed.

Lemma py_filter_blocked {A : Type} (f : A -> result bool) (l : list A) (x : A)
    (e : exn) :
  In x l -> f x = Raise e -> exists e', py_filter f l = Raise e'.
Proof.
  induction l as [|a l IH]; intros I R; [destruct I|]. simpl.
  destruct (f a) as [b|e'] eqn:E; simpl; [|now exists e'].
  destruct I as [->|I]; [congruence|].
  destruct (IH I R) as [e'' ->]. simpl. now exists e''.
Qed.

Lemma eligible_raise_index (filename : string) (a : Z * string) (e : exn) :
  eligible filename a = Raise e -> e = IndexError.
Proof.
  unfold eligible. destruct (all_but_last _ =? filename); [|discriminate].
  destruct (last_char _) as [c|e'] eqn:L; simpl; [discriminate|].
  apply last_char_raise in L as [_ ->]. congruence.
Qed.

Lemma py_filter_raise_index (filename : string) (l : list (Z * string))
    (e : exn) :
  py_filter (eligible filename) l = Raise e -> e = IndexError.
Proof.
  intros F. apply py_filter_raise in F as [a [_ F]].
  now apply eligible_raise_index in F.
Qed.

(** The counter of a scan that returns: 1 when no key is eligible, else
    one more than the field of an eligible key that no other eligible key
    exceeds. *)
Lemma scan_exact (fp filename : string) (files : list string) (c : Z) :
  scan fp filename files = Ok c ->
  (forall key, In key files ->
     eligible filename (map_filename fp key) = Ok true ->
     (fst (map_filename fp key) < c)%Z) /\
  ((c = 1%Z /\ forall key, In key files ->
                 eligible filename (map_filename fp key) <> Ok true) \/
   (exists key, In key files /\
      eligible filename (map_filename fp key) = Ok true /\
      c = (fst (map_filename fp key) + 1)%Z)).
Proof.
  unfold scan.
  destruct (py_filter (eligible filename) (map (map_filename fp) files))
    as [cands|e] eqn:F; cbn [rbind];
    [|apply py_filter_raise_index in F; subst e; discriminate].
  destruct (py_max cands) as [best|e] eqn:M; cbn [rbind].
  - intros [= <-]. split.
    + intros key I E.
      assert (In (map_filename fp key) cands) as J
        by (apply (py_filter_keeps _ _ _ _ F); [now apply in_map | exact E]).
      pose proof (py_max_upper _ _ _ M J). lia.
    + right. apply py_max_In in M.
      destruct (py_filter_In _ _ _ _ F M) as [I E].
      apply in_map_iff in I as [key [<- I]]. now exists key.
  - destruct cands as [|x xs]; [|discriminate M].
    assert (N : forall key, In key files ->
                eligible filename (map_filename fp key) <> Ok true).
    { intros key I E.
      apply (py_filter_keeps _ _ _ _ F (in_map _ _ _ I) E). }
    destruct e; intros [= <-]; try discriminate M.
    split; [intros key I E; now destruct (N key I) | left; now split].
Qed.

(** Two scans over the same keys that both return agree. *)
Lemma scan_exact_unique (fp filename : string) (files files' : list string)
    (c c' : Z) :
  (forall key, In key files <-> In key files') ->
  scan fp filename files = Ok c -> scan fp filename files' = Ok c' -> c = c'.
Proof.
  intros S H H'. apply scan_exact in H as [U O], H' as [U' O'].
  destruct O as [[-> N]|[k [I [E ->]]]], O' as [[-> N']|[k' [I' [E' ->]]]].
  - reflexivity.
  - apply S in I'. now destruct (N k' I').
  - apply S in I. now destruct (N' k I).
  - apply S in I as J. apply S in I' as J'.
    specialize (U k' J' E'). specialize (U' k J E). lia.
Qed.

Lemma scan_raise_index (fp filename : string) (files : list string) (e : exn) :
  scan fp filename files = Raise e -> e = IndexError.
Proof.
  intros H. apply scan_raise in H as [key [_ H]].
  now apply eligible_raise_index in H.
Qed.

Lemma scan_blocked (fp filename : string) (files : list string) (key : string)
    (e : exn) :
  In key files -> eligible filename (map_filename fp key) = Raise e ->
  scan fp filename files = Raise IndexError.
Proof.
  intros I R.
  destruct (scan fp filename files) as [c|e'] eqn:S.
  - exfalso. unfold scan in S.
    destruct (py_filter_blocked (eligible filename)
                (map (map_filename fp) files) (map_filename fp key) e
                (in_map _ _ _ I) R) as [e'' F].
    rewrite F in S. apply py_filter_raise_index in F. subst e''.
    discriminate S.
  - f_equal. now apply scan_raise_index in S.
Qed.

End CounterMore.

(** X1: when [get_save_path] returns the counter [c], the field of every
    eligible listed key is below [c]; and either no listed key is eligible
    and [c] is 1, or [c] is one more than the field of an eligible listed
    key. So [c] is the largest field among the eligible listed keys plus
    one. Keys and templates are texts over the code points below 256; the
    field of a key is what [map_filename] reads with [int()], 0 when
    [int()] rejects the text. *)
Theorem counter_is_largest_field_plus_one (self : S3) (fp : string)
    (iw ih : Z) (st : world) (c : Z) :
  returned_counter (get_save_path self fp iw ih st) = Some c ->
  (forall key, In key (listed self fp iw ih st) ->
     eligible (base_name fp iw ih) (map_filename (resolved fp iw ih) key)
       = Ok true ->
     (fst (map_filename (resolved fp iw ih) key) < c)%Z) /\
  ((c = 1%Z /\
    forall key, In key (listed self fp iw ih st) ->
      eligible (base_name fp iw ih) (map_filename (resolved fp iw ih) key)
        <> Ok true) \/
   (exists key, In key (listed self fp iw ih st) /\
      eligible (base_name fp iw ih) (map_filename (resolved fp iw ih) key)
        = Ok true /\
      c = (fst (map_filename (resolved fp iw ih) key) + 1)%Z)).
Proof.
  rewrite get_save_path_counter.
  destruct (scan _ _ _) as [c'|e] eqn:S; [|discriminate].
  intros [= <-]. now apply scan_exact.
Qed.

(** X1 on a bucket with the outputs 3 and 12 of the template [img]. *)
Lemma counter_is_largest_field_plus_one_witness :
  (fst (map_filename "img" "img_00012_.png") < 13)%Z.
Proof.
  apply (proj1 (counter_is_largest_field_plus_one (mkS3 "" 100) "img" 0 0
           (quiet ["img_00003_.png"; "img_00012_.png"; "other.txt"]) 13
           eq_refl) "img_00012_.png").
  - right. now left.
  - reflexivity.
Defined.

(** X2: the order in which the keys are listed does not matter to the
    scan: two listings with the same keys give the same counter, or both
    make the scan raise. *)
Theorem scan_order_irrelevant (fp filename : string) (files files' : list string) :
  Permutation files files' ->
  scan fp filename files = scan fp filename files'.
Proof.
  intros P.
  assert (S : forall key, In key files <-> In key files').
  { intros key. split; apply Permutation_in;
      [exact P | now apply Permutation_sym]. }
  destruct (scan fp filename files) as [c|e] eqn:H;
    destruct (scan fp filename files') as [c'|e'] eqn:H'.
  - f_equal. now apply (scan_exact_unique fp filename files files').
  - apply scan_raise in H' as [key [I R]]. apply S in I.
    rewrite (scan_blocked _ _ _ _ _ I R) in H. discriminate.
  - apply scan_raise in H as [key [I R]]. apply S in I.
    rewrite (scan_blocked _ _ _ _ _ I R) in H'. discriminate.
  - apply scan_raise_index in H, H'. congruence.
Qed.

(** X2 on a listing of three keys and its reversal. *)
Lemma scan_order_irrelevant_witness :
  scan "img" "img" ["img_00003_.png"; "img_00012_.png"; "other.txt"] =
  scan "img" "img" ["other.txt"; "img_00012_.png"; "img_00003_.png"].
Proof.
  apply scan_order_irrelevant.
  apply (Permutation_rev ["img_00003_.png"; "img_00012_.png"; "other.txt"]).
Defined.

(** X3: once a key whose field is the counter just returned joins the
    listing, the scan returns the next integer. *)
Theorem scan_after_taking_counter (fp filename : string) (files : list string)
    (key : string) (c : Z) :
  scan fp filename files = Ok c ->
  map_filename fp key = (c, filename ++ "_") ->
  scan fp filename (key :: files) = Ok (c + 1)%Z.
Proof.
  intros S K.
  assert (E : eligible filename (map_filename fp key) = Ok true)
    by (apply eligible_true_iff; now rewrite K).
  destruct (scan fp filename (key :: files)) as [c'|e] eqn:S'.
  - f_equal. apply scan_exact in S as [U O], S' as [U' O'].
    pose proof (U' key (or_introl eq_refl) E) as B. rewrite K in B. simpl in B.
    destruct O' as [[_ N]|[k [[<-|I] [Ek ->]]]].
    + now destruct (N key (or_introl eq_refl)).
    + now rewrite K.
    + specialize (U k I Ek). lia.
  - exfalso. apply scan_raise in S' as [k [[<-|I] R]]; [congruence|].
    rewrite (scan_blocked _ _ _ _ _ I R) in S. discriminate.
Qed.

(** X3 on the listing of X1 and the key that takes counter 13. *)
Lemma scan_after_taking_counter_witness :
  scan "img" "img"
    ["img_00013_.png"; "img_00003_.png"; "img_00012_.png"; "other.txt"]
  = Ok 14%Z.
Proof.
  apply (scan_after_taking_counter "img" "img"
           ["img_00003_.png"; "img_00012_.png"; "other.txt"]
           "img_00013_.png" 13); reflexivity.
Defined.

(** ** Further properties: reading a counter back *)

Section ReadBack.

Ltac eval_digit :=
  match goal with
  | |- context [digit_val ?c] =>
      let v := eval vm_compute in (digit_val c) in
      change (digit_val c) with v; cbv beta iota
  end.

Lemma parse_digits_uint_acc (d : uint) (p : positive) :
  parse_digits (Zpos p) (NilEmpty.string_of_uint d) =
  Some (Zpos (Pos.of_uint_acc d p)).
Proof.
  revert p. induction d; intros p;
    cbn [NilEmpty.string_of_uint parse_digits Pos.of_uint_acc];
    [reflexivity | ..];
    (eval_digit; rewrite <- IHd; f_equal; lia).
Qed.

Lemma parse_digits_uint (d : uint) :
  parse_digits 0 (NilEmpty.string_of_uint d) = Some (Z.of_N (Pos.of_uint d)).
Proof.
  induction d;
    cbn [NilEmpty.string_of_uint parse_digits Pos.of_uint Z.of_N];
    [reflexivity | ..]; eval_digit;
    [exact IHd | rewrite <- parse_digits_uint_acc; reflexivity ..].
Qed.

Lemma numeral_char_no_space (c : ascii) :
  is_numeral_char c = true -> is_int_space c = false.
Proof.
  destruct c as [[|] [|] [|] [|] [|] [|] [|] [|]]; vm_compute; intros H;
    (reflexivity || discriminate H).
Qed.

Lemma numeral_char_no_underscore (c : ascii) :
  is_numeral_char c = true -> Ascii.eqb c "_" = false.
Proof.
  destruct c as [[|] [|] [|] [|] [|] [|] [|] [|]]; vm_compute; intros H;
    (reflexivity || discriminate H).
Qed.

Lemma lstrip_numeral (s : string) : numeral s = true -> int_lstrip s = s.
Proof.
  destruct s as [|c s]; [reflexivity|]. cbn [numeral int_lstrip].
  intros H. apply andb_true_iff in H as [H _].
  now rewrite (numeral_char_no_space c H).
Qed.

Lemma rstrip_numeral (s : string) : numeral s = true -> int_rstrip s = s.
Proof.
  induction s as [|c s IH]; [reflexivity|]. cbn [numeral int_rstrip].
  intros H. apply andb_true_iff in H as [Hc H]. rewrite (IH H).
  destruct s; [now rewrite (numeral_char_no_space c Hc) | reflexivity].
Qed.

(** The first field of a text cut at [_] is what stands before the first
    [_]. *)
Lemma split_first_field (d rest : string) :
  numeral d = true -> first (split "_" (d ++ String "_" rest)) = d.
Proof.
  induction d as [|c d IH]; intros N; [reflexivity|].
  cbn [numeral] in N. apply andb_true_iff in N as [Nc N].
  cbn [append split]. rewrite (numeral_char_no_underscore c Nc).
  specialize (IH N). destruct (split "_" (d ++ String "_" rest)) as [|w ws];
    cbn in *; now subst.
Qed.

Lemma numeral_append (a b : string) :
  numeral (a ++ b) = numeral a && numeral b.
Proof.
  induction a as [|c a IH]; [reflexivity|].
  cbn [append numeral]. now rewrite IH, andb_assoc.
Qed.

Lemma numeral_zeros (k : nat) : numeral (zeros k) = true.
Proof. induction k as [|k IH]; [reflexivity | exact IH]. Qed.

Lemma parse_digits_zeros (k : nat) (s : string) :
  parse_digits 0 (zeros k ++ s) = parse_digits 0 s.
Proof. induction k as [|k IH]; [reflexivity | exact IH]. Qed.

Lemma uint_text_not_nil (d : uint) :
  d <> Nil -> NilZero.string_of_uint d = NilEmpty.string_of_uint d.
Proof. destruct d; [contradiction | reflexivity ..]. Qed.

(** [int] reads a decimal numeral without sign, whatever its padding. *)
Lemma py_int_unsigned (k : nat) (p : positive) :
  py_int (zeros k ++ NilEmpty.string_of_uint (Pos.to_uint p)) = Ok (Zpos p).
Proof.
  assert (N : numeral (zeros k ++ NilEmpty.string_of_uint (Pos.to_uint p)) = true)
    by (rewrite numeral_append, numeral_zeros; apply numeral_uint).
  assert (V : parse_digits 0
                (zeros k ++ NilEmpty.string_of_uint (Pos.to_uint p))
              = Some (Zpos p)).
  { rewrite parse_digits_zeros, parse_digits_uint.
    now rewrite DecimalPos.Unsigned.of_to. }
  unfold py_int. rewrite lstrip_numeral, rstrip_numeral by exact N.
  pose proof (DecimalPos.Unsigned.to_uint_nonnil p) as Z.
  destruct k as [|k].
  - cbn [zeros append] in *.
    destruct (Pos.to_uint p) as [|u|u|u|u|u|u|u|u|u|u]; [contradiction | ..];
      cbn [NilEmpty.string_of_uint] in *; now rewrite V.
  - cbn [zeros append] in *. now rewrite V.
Qed.

Lemma py_int_negative (p : positive) :
  py_int (String "-" (NilEmpty.string_of_uint (Pos.to_uint p))) = Ok (Zneg p).
Proof.
  assert (N : numeral (String "-" (NilEmpty.string_of_uint (Pos.to_uint p)))
              = true) by apply (numeral_uint (Pos.to_uint p)).
  assert (V : parse_digits 0 (NilEmpty.string_of_uint (Pos.to_uint p))
              = Some (Zpos p))
    by (rewrite parse_digits_uint; now rewrite DecimalPos.Unsigned.of_to).
  unfold py_int. rewrite lstrip_numeral, rstrip_numeral by exact N.
  pose proof (DecimalPos.Unsigned.to_uint_nonnil p) as Z.
  destruct (Pos.to_uint p) as [|u|u|u|u|u|u|u|u|u|u]; [contradiction | ..];
    cbn [NilEmpty.string_of_uint] in *; now rewrite V.
Qed.

(** [int(str(n))] is [n]. *)
Lemma py_int_str (n : Z) : py_int (str n) = Ok n.
Proof.
  unfold str. destruct n as [|p|p]; [reflexivity | |];
    cbn [Z.to_int NilZero.string_of_int];
    rewrite uint_text_not_nil by apply DecimalPos.Unsigned.to_uint_nonnil.
  - apply (py_int_unsigned 0).
  - apply py_int_negative.
Qed.

Lemma take_key_prefix (base tail : string) :
  take (len base + 1) (base ++ String "_" tail) = base ++ "_".
Proof.
  induction base as [|c base IH]; cbn [len String.length append take Nat.add].
  - now destruct tail.
  - unfold len in IH. now rewrite IH.
Qed.

Lemma drop_key_prefix (base tail : string) :
  drop (len base + 1) (base ++ String "_" tail) = tail.
Proof.
  induction base as [|c base IH]; cbn [len String.length append drop Nat.add].
  - now destruct tail.
  - exact IH.
Qed.

(** A key made of the base name, [_], a numeral, [_] and any rest is read
    as the value of the numeral. *)
Lemma map_filename_numeral (fp base d rest : string) :
  len (basename fp) = len base -> numeral d = true ->
  map_filename fp (base ++ String "_" (d ++ String "_" rest)) =
  (match py_int d with Ok v => v | Raise _ => 0%Z end, base ++ "_").
Proof.
  intros L N. unfold map_filename. rewrite L.
  now rewrite take_key_prefix, drop_key_prefix, split_first_field.
Qed.

End ReadBack.

(** X4: [map_filename] reads back the counter of a key written as base
    name, [_], the decimal form of an integer, [_] and any suffix: it
    returns that integer, negative ones included, and the base name
    followed by [_], so the key is eligible. For an integer that is not
    negative the same holds with any number of zeros padded in front. *)
Theorem map_filename_reads_counter (fp base rest : string) (n : Z) :
  len (basename fp) = len base ->
  map_filename fp (base ++ "_" ++ str n ++ "_" ++ rest) = (n, base ++ "_") /\
  eligible base (map_filename fp (base ++ "_" ++ str n ++ "_" ++ rest))
    = Ok true /\
  ((0 <= n)%Z -> forall k,
     map_filename fp (base ++ "_" ++ zeros k ++ str n ++ "_" ++ rest)
       = (n, base ++ "_")).
Proof.
  intros L.
  assert (E : map_filename fp (base ++ "_" ++ str n ++ "_" ++ rest)
              = (n, base ++ "_")).
  { cbn [append]. rewrite map_filename_numeral by (exact L || apply numeral_str).
    now rewrite py_int_str. }
  split; [exact E|]. split; [apply eligible_true_iff; now rewrite E|].
  intros P k.
  replace (zeros k ++ str n ++ "_" ++ rest)
    with ((zeros k ++ str n) ++ "_" ++ rest) by apply append_assoc.
  cbn [append].
  rewrite map_filename_numeral
    by (exact L || (rewrite numeral_append, numeral_zeros; apply numeral_str)).
  f_equal. destruct n as [|p|p]; [| | lia].
  - change (str 0) with "0". unfold py_int.
    assert (N : numeral (zeros k ++ "0") = true)
      by now rewrite numeral_append, numeral_zeros.
    rewrite lstrip_numeral, rstrip_numeral by exact N.
    assert (V : parse_digits 0 (zeros k ++ "0") = Some 0%Z)
      by now rewrite parse_digits_zeros.
    destruct k; cbn [zeros append] in *; now rewrite V.
  - unfold str. cbn [Z.to_int NilZero.string_of_int].
    rewrite uint_text_not_nil by apply DecimalPos.Unsigned.to_uint_nonnil.
    now rewrite py_int_unsigned.
Qed.

(** X4 on the key of the counter 7 padded to five digits. *)
Lemma map_filename_reads_counter_witness :
  map_filename "out/img" "img_00007_.png" = (7%Z, "img_").
Proof.
  apply (proj2 (proj2 (map_filename_reads_counter "out/img" "img" ".png" 7
                         eq_refl)) ltac:(lia) 4%nat).
Defined.

(** ** Further properties: no token survives the substitution *)

Section TokenFree.

Variables tok new : string.
Hypothesis tok_chars : no_numeral_char tok = true.
Hypothesis tok_not_nil : tok <> "".
Hypothesis new_numeral : numeral new = true.
Hypothesis new_not_nil : new <> "".

Local Notation "'R'" := (replace_from tok new 0).

Lemma R_head (x : string) (a : ascii) (y : string) :
  R x = String a y -> is_numeral_char a = false ->
  exists x', x = String a x' /\ y = R x'.
Proof.
  destruct x as [|b x]; [discriminate|].
  destruct (String.prefix tok (String b x)) eqn:P.
  - rewrite replace_hit by assumption.
    destruct new as [|s0 new']; [contradiction|].
    cbn [numeral] in new_numeral.
    apply andb_true_iff in new_numeral as [N _].
    cbn [append]. intros [= -> _] F. congruence.
  - rewrite replace_miss by exact P. intros [= -> <-] _. now exists x.
Qed.

Lemma R_prefix_lift (t x : string) :
  no_numeral_char t = true ->
  String.prefix t (R x) = true -> String.prefix t x = true.
Proof.
  revert x. induction t as [|a t IH]; intros x N P; [now destruct x|].
  cbn [no_numeral_char] in N. apply andb_true_iff in N as [Na N].
  apply negb_true_iff in Na.
  destruct (R x) as [|b y] eqn:E; [discriminate|].
  rewrite prefix_cons in P. apply andb_true_iff in P as [Q P].
  apply Ascii.eqb_eq in Q. subst b.
  destruct (R_head _ _ _ E Na) as [x' [-> ->]].
  rewrite prefix_cons, Ascii.eqb_refl. now apply IH.
Qed.

(** No occurrence of a text without numeral characters starts inside a
    numeral. *)
Lemma contains_numeral_front (t d y : string) :
  t <> "" -> no_numeral_char t = true -> numeral d = true ->
  contains t (d ++ y) = contains t y.
Proof.
  intros T N. induction d as [|a d IH]; intros D; [reflexivity|].
  cbn [numeral] in D. apply andb_true_iff in D as [Da D].
  cbn [append contains]. rewrite (IH D).
  destruct t as [|b t]; [contradiction|].
  cbn [no_numeral_char] in N. apply andb_true_iff in N as [Nb _].
  apply negb_true_iff in Nb.
  rewrite prefix_cons.
  destruct (Ascii.eqb_spec b a) as [->|]; [congruence | reflexivity].
Qed.

Lemma contains_nil (s : string) : s <> "" -> contains s "" = false.
Proof. destruct s; [contradiction | reflexivity]. Qed.

Lemma no_numeral_split (s : string) :
  s <> "" -> no_numeral_char s = true ->
  exists b t, s = String b t /\ no_numeral_char t = true.
Proof.
  destruct s as [|b t]; [contradiction|]. intros _ N.
  cbn [no_numeral_char] in N. apply andb_true_iff in N as [_ N].
  now exists b, t.
Qed.

Lemma len_positive (s : string) : s <> "" -> (1 <= len s)%nat.
Proof. destruct s; [contradiction | simpl; lia]. Qed.

Lemma contains_of_drop (t : string) (k : nat) (x : string) :
  contains t (drop k x) = true -> contains t x = true.
Proof.
  intros H. destruct (contains t x) eqn:C; [reflexivity|].
  now rewrite (contains_drop t k x C) in H.
Qed.

(** An occurrence of such a text in the result was in the original. *)
Lemma R_contains_lift (t : string) (n : nat) (x : string) :
  t <> "" -> no_numeral_char t = true -> (len x <= n)%nat ->
  contains t (R x) = true -> contains t x = true.
Proof.
  intros T N. revert x. induction n as [|n IH]; intros x L C.
  - destruct x; [|simpl in L; lia]. cbn in C.
    apply prefix_nil_r in C. contradiction.
  - destruct x as [|c r].
    + cbn in C. apply prefix_nil_r in C. contradiction.
    + destruct (String.prefix tok (String c r)) eqn:P.
      * rewrite replace_hit in C by assumption.
        rewrite contains_numeral_front in C by assumption.
        apply contains_of_drop with (k := len tok). apply IH; [|exact C].
        pose proof (len_positive tok tok_not_nil).
        rewrite len_drop. change (len (String c r)) with (S (len r)) in *.
        lia.
      * rewrite replace_miss in C by exact P.
        cbn [contains] in C |- *. apply orb_true_iff in C as [C|C].
        -- destruct t as [|b t]; [contradiction|].
           cbn [no_numeral_char] in N. apply andb_true_iff in N as [_ N].
           rewrite prefix_cons in C. apply andb_true_iff in C as [Cb C].
           apply R_prefix_lift in C; [|exact N].
           now rewrite prefix_cons, Cb, C.
        -- rewrite (IH r); [apply orb_true_r | simpl in L; lia | exact C].
Qed.

(** The token does not occur in the result of its replacement. *)
Lemma R_free (n : nat) (x : string) :
  (len x <= n)%nat -> contains tok (R x) = false.
Proof.
  revert x. induction n as [|n IH]; intros x L.
  - destruct x; [|simpl in L; lia]. now apply contains_nil.
  - destruct x as [|c r]; [now apply contains_nil|].
    destruct (String.prefix tok (String c r)) eqn:P.
    + rewrite replace_hit by assumption.
      rewrite contains_numeral_front by assumption.
      pose proof (len_positive tok tok_not_nil).
      apply IH. rewrite len_drop.
      change (len (String c r)) with (S (len r)) in *. lia.
    + rewrite replace_miss by exact P. cbn [contains].
      rewrite (IH r) by (simpl in L; lia). rewrite orb_false_r.
      destruct (String.prefix tok (String c (R r))) eqn:F; [|reflexivity].
      destruct (no_numeral_split tok tok_not_nil tok_chars) as [b [t [E N]]].
      rewrite E in F at 1. rewrite E in P at 1.
      rewrite prefix_cons in F. apply andb_true_iff in F as [Fb F].
      apply R_prefix_lift in F; [|exact N].
      rewrite prefix_cons, Fb, F in P. discriminate.
Qed.

End TokenFree.

(** X5: for every template, width and height, the text that
    [compute_vars] returns holds neither [%width%] nor [%height%], so
    substituting once more changes nothing. *)
Theorem compute_vars_leaves_no_token (template : string) (width height : Z) :
  contains "%width%" (compute_vars template width height) = false /\
  contains "%height%" (compute_vars template width height) = false /\
  compute_vars (compute_vars template width height) width height
    = compute_vars template width height.
Proof.
  assert (Wc : no_numeral_char "%width%" = true) by reflexivity.
  assert (Hc : no_numeral_char "%height%" = true) by reflexivity.
  assert (Wn : "%width%" <> "") by discriminate.
  assert (Hn : "%height%" <> "") by discriminate.
  unfold compute_vars. cbn [replace].
  set (t1 := replace_from "%width%" (str width) 0 template).
  set (t2 := replace_from "%height%" (str height) 0 t1).
  assert (W1 : contains "%width%" t1 = false)
    by (apply (R_free "%width%" (str width) Wc Wn (numeral_str width)
                 (str_not_nil width) (len template)); lia).
  assert (H : contains "%height%" t2 = false)
    by (apply (R_free "%height%" (str height) Hc Hn (numeral_str height)
                 (str_not_nil height) (len t1)); lia).
  assert (W : contains "%width%" t2 = false).
  { destruct (contains "%width%" t2) eqn:C; [|reflexivity].
    apply (R_contains_lift "%height%" (str height) Hn (numeral_str height)
             (str_not_nil height) "%width%" (len t1) t1 Wn Wc) in C;
      [congruence | lia]. }
  repeat split; [exact W | exact H |].
  rewrite (replace_absent "%width%") by exact W.
  now apply replace_absent.
Qed.

(** ** Further properties: what the operations do to the bucket *)

Section BucketFacts.

Lemma quiet_step (n : nat) (l : list bool) :
  forallb negb (firstn (S n) l) = true ->
  hd false l = false /\ forallb negb (firstn n (tl l)) = true.
Proof.
  destruct l as [|b l]; cbn.
  - intros _. split; [reflexivity | now rewrite firstn_nil].
  - intros H. apply andb_true_iff in H as [H1 H2].
    apply negb_true_iff in H1. now split.
Qed.

Lemma In_insert_sorted (k x : string) (keys : list string) :
  In x (insert_sorted k keys) <-> x = k \/ In x keys.
Proof.
  split.
  - intros H. apply (Permutation_in _ (Permutation_sym (insert_sorted_perm k keys)))
      in H. destruct H as [<-|H]; [now left | now right].
  - intros H. apply (Permutation_in _ (insert_sorted_perm k keys)).
    destruct H as [->|H]; [now left | now right].
Qed.

Lemma In_insert_key (k x : string) (keys : list string) :
  In x (insert_key k keys) <-> x = k \/ In x keys.
Proof.
  unfold insert_key. destruct (existsb (String.eqb k) keys) eqn:E.
  - split; [now right|]. intros [->|H]; [|exact H].
    apply existsb_exists in E as [y [I E]].
    apply String.eqb_eq in E. now subst y.
  - apply In_insert_sorted.
Qed.

Lemma insert_key_again (k : string) (keys : list string) :
  insert_key k (insert_key k keys) = insert_key k keys.
Proof.
  unfold insert_key at 1.
  assert (existsb (String.eqb k) (insert_key k keys) = true) as ->; [|reflexivity].
  apply existsb_exists. exists k. split;
    [apply insert_key_In | apply String.eqb_refl].
Qed.

Lemma length_insert_key (k : string) (keys : list string) :
  (length (insert_key k keys) <= S (length keys))%nat.
Proof.
  unfold insert_key. destruct (existsb (String.eqb k) keys); [lia|].
  rewrite <- (Permutation_length (insert_sorted_perm k keys)). simpl. lia.
Qed.

Lemma endswith_marker (f : string) : endswith "/" (f ++ "/") = true.
Proof.
  unfold endswith. rewrite len_append. cbn [len String.length].
  replace (len f + 1 - 1)%nat with (len f) by lia.
  rewrite drop_append.
  destruct (1 <=? len f + 1)%nat eqn:E; [reflexivity|].
  apply Nat.leb_gt in E. lia.
Qed.

Lemma create_folder_cases (f : string) (st : world) :
  (hd false (faults st) = true /\
   create_folder f st =
     mkWorld (objects st) (tl (faults st)) (writes st)
             (errors st ++ [FailedCreateFolder])) \/
  (hd false (faults st) = false /\
   create_folder f st =
     mkWorld (insert_key (f ++ "/") (objects st)) (tl (faults st))
             (writes st ++ [(f ++ "/")%string]) (errors st)).
Proof.
  unfold create_folder. rewrite request_eq.
  destruct (hd false (faults st)); [left | right]; now split.
Qed.

Lemma does_folder_exist_cases (f : string) (st : world) :
  (hd false (faults st) = true /\
   does_folder_exist f st =
     (None, mkWorld (objects st) (tl (faults st)) (writes st)
                    (errors st ++ [FailedFolderExists]))) \/
  (hd false (faults st) = false /\
   does_folder_exist f st =
     (Some (existsb (startswith f) (List.filter (startswith f) (objects st))),
      mkWorld (objects st) (tl (faults st)) (writes st) (errors st))).
Proof.
  unfold does_folder_exist. rewrite request_eq.
  destruct (hd false (faults st)); [left | right]; now split.
Qed.

Lemma existsb_filter_iff (f : string -> bool) (l : list string) :
  existsb f (List.filter f l) = true <-> exists k, In k l /\ f k = true.
Proof.
  split.
  - intros H. apply existsb_exists in H as [k [I F]].
    apply filter_In in I as [I _]. now exists k.
  - intros [k [I F]]. now apply existsb_filter_In with (x := k).
Qed.

(** What a run of the folder provisioning leaves: the bucket as it was, or
    with the marker added and recorded as the one write. *)
Lemma ensure_folder_effect (f : string) (st : world) :
  (objects (ensure_folder f st) = objects st /\
   writes (ensure_folder f st) = writes st) \/
  (objects (ensure_folder f st) = insert_key (f ++ "/") (objects st) /\
   writes (ensure_folder f st) = (writes st ++ [(f ++ "/")%string])%list).
Proof.
  unfold ensure_folder.
  destruct (does_folder_exist_cases f st) as [[_ ->]|[_ ->]]; cbn.
  - match goal with |- context [create_folder f ?w] =>
      destruct (create_folder_cases f w) as [[_ ->]|[_ ->]] end;
      cbn; [left | right]; now split.
  - destruct (existsb _ _); cbn; [left; now split|].
    match goal with |- context [create_folder f ?w] =>
      destruct (create_folder_cases f w) as [[_ ->]|[_ ->]] end;
      cbn; [left | right]; now split.
Qed.

Lemma get_files_keeps (self : S3) (p : string) (st : world) :
  objects (snd (get_files self p st)) = objects st /\
  writes (snd (get_files self p st)) = writes st.
Proof.
  unfold get_files.
  destruct (does_folder_exist_cases p st) as [[_ ->]|[_ ->]]; cbn;
    [now split|].
  destruct (existsb _ _); cbn; [|now split].
  rewrite request_eq. cbn. destruct (hd false _); cbn; now split.
Qed.

End BucketFacts.

Section BucketMore.

Lemma filter_twice {A : Type} (f g : A -> bool) (l : list A) :
  List.filter g (List.filter f l) = List.filter (fun x => f x && g x) l.
Proof.
  induction l as [|x l IH]; [reflexivity|]. cbn.
  destruct (f x); cbn; [destruct (g x); now rewrite IH | exact IH].
Qed.

Lemma no_fault_2 (st : world) :
  no_fault 2 st = true ->
  hd false (faults st) = false /\ hd false (tl (faults st)) = false.
Proof.
  unfold no_fault. intros H. apply quiet_step in H as [H1 H].
  apply quiet_step in H as [H2 _]. now split.
Qed.

(** Without a failing request and with room under the cap, [get_files]
    returns the keys under the prefix that do not end in [/], in the order
    of the bucket. *)
Lemma get_files_all (self : S3) (p : string) (st : world) :
  hd false (faults st) = false -> hd false (tl (faults st)) = false ->
  (length (objects_filter p st) <= Z.to_nat (list_limit_items self))%nat ->
  fst (get_files self p st) =
  List.filter (fun k => startswith p k && negb (endswith "/" k)) (objects st).
Proof.
  intros F1 F2 L. rewrite <- filter_twice. unfold get_files.
  destruct (does_folder_exist_cases p st) as [[F _]|[_ ->]]; [congruence|].
  destruct (existsb _ _) eqn:E; cbn.
  - rewrite request_eq. cbn. rewrite F2. cbn.
    unfold limit, objects_filter in *. cbn. now rewrite firstn_all2.
  - now rewrite (existsb_filter_false _ _ E).
Qed.

End BucketMore.

(** X6: whatever the store does, [get_save_path] removes no key from the
    bucket, adds none but the marker of the output folder, and writes at
    most once, the marker. When its first folder check does not fail and
    finds a key under the output folder, it leaves the bucket as it was
    and writes nothing. *)
Theorem get_save_path_adds_at_most_marker (self : S3) (fp : string)
    (iw ih : Z) (st : world) :
  (forall k, In k (objects st) ->
     In k (objects (snd (get_save_path self fp iw ih st)))) /\
  (forall k, In k (objects (snd (get_save_path self fp iw ih st))) ->
     In k (objects st) \/ k = output_folder self fp iw ih ++ "/") /\
  (writes (snd (get_save_path self fp iw ih st)) = writes st \/
   writes (snd (get_save_path self fp iw ih st)) =
     (writes st ++ [(output_folder self fp iw ih ++ "/")%string])%list) /\
  (hd false (faults st) = false ->
   (exists k, In k (objects st) /\
      startswith (output_folder self fp iw ih) k = true) ->
   objects (snd (get_save_path self fp iw ih st)) = objects st /\
   writes (snd (get_save_path self fp iw ih st)) = writes st).
Proof.
  rewrite get_save_path_world.
  destruct (get_files_keeps self (output_folder self fp iw ih)
              (ensure_folder (output_folder self fp iw ih) st)) as [-> ->].
  repeat split.
  - intros k I.
    destruct (ensure_folder_effect (output_folder self fp iw ih) st)
      as [[-> _]|[-> _]]; [exact I | apply In_insert_key; now right].
  - intros k I.
    destruct (ensure_folder_effect (output_folder self fp iw ih) st)
      as [[E _]|[E _]]; rewrite E in I; [now left|].
    apply In_insert_key in I as [->|I]; [now right | now left].
  - destruct (ensure_folder_effect (output_folder self fp iw ih) st)
      as [[_ ->]|[_ ->]]; [now left | now right].
  - apply existsb_filter_iff in H0.
    now rewrite (ensure_folder_found _ st H H0).
  - apply existsb_filter_iff in H0.
    now rewrite (ensure_folder_found _ st H H0).
Qed.

(** X6 on a bucket that already holds a key under the output folder. *)
Lemma get_save_path_adds_at_most_marker_witness :
  objects (snd (get_save_path (mkS3 "output" 100) "img" 0 0
                  (quiet ["output/a.png"]))) = ["output/a.png"] /\
  writes (snd (get_save_path (mkS3 "output" 100) "img" 0 0
                 (quiet ["output/a.png"]))) = [].
Proof.
  apply (proj2 (proj2 (proj2 (get_save_path_adds_at_most_marker
           (mkS3 "output" 100) "img" 0 0 (quiet ["output/a.png"]))))).
  - reflexivity.
  - exists "output/a.png". split; [now left | reflexivity].
Defined.

(** X7: when the two requests of the provisioning do not fail, the bucket
    holds a key under the output folder once [get_save_path] has run. *)
Theorem get_save_path_provisions_folder (self : S3) (fp : string)
    (iw ih : Z) (st : world) :
  no_fault 2 st = true ->
  exists key,
    In key (objects (snd (get_save_path self fp iw ih st))) /\
    startswith (output_folder self fp iw ih) key = true.
Proof.
  intros N. apply no_fault_2 in N as [F1 F2].
  rewrite get_save_path_world.
  destruct (get_files_keeps self (output_folder self fp iw ih)
              (ensure_folder (output_folder self fp iw ih) st)) as [-> _].
  destruct (existsb (startswith (output_folder self fp iw ih))
              (List.filter (startswith (output_folder self fp iw ih))
                 (objects st))) eqn:E.
  - rewrite (ensure_folder_found _ st F1 E). cbn.
    now apply existsb_filter_iff in E.
  - rewrite (ensure_folder_created _ st F1 F2 E). cbn.
    exists (output_folder self fp iw ih ++ "/").
    split; [apply insert_key_In | apply prefix_append].
Qed.

(** X7 on an empty bucket: the marker [output/sub/] is there afterwards. *)
Lemma get_save_path_provisions_folder_witness :
  exists key,
    In key (objects (snd (get_save_path (mkS3 "output" 100) "sub/img" 0 0
                            (quiet [])))) /\
    startswith "output/sub" key = true.
Proof.
  apply (get_save_path_provisions_folder (mkS3 "output" 100) "sub/img" 0 0
           (quiet [])). reflexivity.
Defined.

(** X8: [does_folder_exist] changes neither the bucket nor the writes.
    When its request fails it returns [None] and logs the failure; when it
    does not, it returns a boolean that is true exactly when some key of
    the bucket starts with the folder name, and logs nothing. *)
Theorem does_folder_exist_contract (folder_name : string) (st : world) :
  objects (snd (does_folder_exist folder_name st)) = objects st /\
  writes (snd (does_folder_exist folder_name st)) = writes st /\
  (hd false (faults st) = true ->
   fst (does_folder_exist folder_name st) = None /\
   errors (snd (does_folder_exist folder_name st)) =
     (errors st ++ [FailedFolderExists])%list) /\
  (hd false (faults st) = false ->
   errors (snd (does_folder_exist folder_name st)) = errors st /\
   exists b, fst (does_folder_exist folder_name st) = Some b /\
     (b = true <->
      exists k, In k (objects st) /\ startswith folder_name k = true)).
Proof.
  destruct (does_folder_exist_cases folder_name st) as [[F ->]|[F ->]]; cbn;
    (split; [reflexivity|]); (split; [reflexivity|]); split; intros G;
    try congruence.
  - now split.
  - split; [reflexivity|]. eexists. split; [reflexivity|].
    apply existsb_filter_iff.
Qed.

(** X8 on a bucket with one key under [output] and on a failing request. *)
Lemma does_folder_exist_contract_witness :
  fst (does_folder_exist "output" (mkWorld ["output/a.png"] [true] [] []))
    = None /\
  exists b, fst (does_folder_exist "input" (quiet ["output/a.png"])) = Some b.
Proof.
  split.
  - apply (proj1 (proj2 (proj2 (does_folder_exist_contract "output"
             (mkWorld ["output/a.png"] [true] [] []))))). reflexivity.
  - destruct (proj2 (proj2 (proj2 (does_folder_exist_contract "input"
               (quiet ["output/a.png"])))) eq_refl) as [_ [b [E _]]].
    now exists b.
Defined.

(** X9: [get_files] changes neither the bucket nor the writes; and when
    neither of its requests fails and the keys under the prefix are no
    more than [list_limit_items], it returns exactly the keys of the bucket
    that start with the prefix and do not end in [/], in the order of the
    bucket. *)
Theorem get_files_complete (self : S3) (prefix : string) (st : world) :
  objects (snd (get_files self prefix st)) = objects st /\
  writes (snd (get_files self prefix st)) = writes st /\
  (no_fault 2 st = true ->
   (length (objects_filter prefix st) <= Z.to_nat (list_limit_items self))%nat ->
   fst (get_files self prefix st) =
   List.filter (fun k => startswith prefix k && negb (endswith "/" k))
     (objects st)).
Proof.
  destruct (get_files_keeps self prefix st) as [O W].
  split; [exact O|]. split; [exact W|].
  intros N L. apply no_fault_2 in N as [F1 F2]. now apply get_files_all.
Qed.

(** X9 on a bucket of four keys, three of them under [out]. *)
Lemma get_files_complete_witness :
  fst (get_files (mkS3 "" 3) "out"
         (quiet ["in/x.png"; "out/"; "out/a.png"; "out/b.png"]))
  = ["out/a.png"; "out/b.png"].
Proof.
  rewrite (proj2 (proj2 (get_files_complete (mkS3 "" 3) "out"
             (quiet ["in/x.png"; "out/"; "out/a.png"; "out/b.png"])))
             eq_refl); [reflexivity | cbn; lia].
Defined.

(** X10: a [create_folder] whose request does not fail removes no key and
    puts the marker into the bucket, so that the next folder check, when
    it does not fail, finds the folder; creating the folder again then
    leaves the bucket as it is. *)
Theorem create_folder_then_exists (folder_name : string) (st : world) :
  no_fault 2 st = true ->
  (forall k, In k (objects st) ->
     In k (objects (create_folder folder_name st))) /\
  In (folder_name ++ "/") (objects (create_folder folder_name st)) /\
  fst (does_folder_exist folder_name (create_folder folder_name st))
    = Some true /\
  objects (create_folder folder_name (create_folder folder_name st))
    = objects (create_folder folder_name st).
Proof.
  intros N. apply no_fault_2 in N as [F1 F2].
  destruct (create_folder_cases folder_name st) as [[F _]|[_ E]];
    [congruence|].
  rewrite E. cbn [objects]. repeat split.
  - intros k I. apply In_insert_key. now right.
  - apply insert_key_In.
  - match goal with |- context [does_folder_exist _ ?w] =>
      destruct (does_folder_exist_cases folder_name w) as [[F _]|[_ ->]] end;
      [cbn in F; congruence|].
    cbn. f_equal. apply existsb_filter_In with (x := folder_name ++ "/").
    + apply insert_key_In.
    + apply prefix_append.
  - match goal with |- context [create_folder _ ?w] =>
      destruct (create_folder_cases folder_name w) as [[F _]|[_ ->]] end;
      [cbn in F; congruence|].
    cbn. apply insert_key_again.
Qed.

(** X10 on the folder [input] of a bucket that has no key under it. *)
Lemma create_folder_then_exists_witness :
  fst (does_folder_exist "input"
         (create_folder "input" (quiet ["output/a.png"]))) = Some true.
Proof.
  apply (proj1 (proj2 (proj2 (create_folder_then_exists "input"
           (quiet ["output/a.png"]) eq_refl)))).
Defined.

Section CompleteScan.

Lemma no_fault_4 (st : world) :
  no_fault 4 st = true ->
  hd false (faults st) = false /\
  hd false (tl (faults st)) = false /\
  hd false (tl (tl (faults st))) = false /\
  hd false (tl (tl (tl (faults st)))) = false.
Proof.
  unfold no_fault. intros H. apply quiet_step in H as [H1 H].
  apply quiet_step in H as [H2 H]. apply quiet_step in H as [H3 H].
  apply quiet_step in H as [H4 _]. now repeat split.
Qed.

(** With four requests that do not fail and room under the cap, every key
    of the bucket that lies under the output folder and is no marker is
    listed. *)
Lemma listed_complete (self : S3) (fp : string) (iw ih : Z) (st : world)
    (key : string) :
  no_fault 4 st = true ->
  (length (objects st) < Z.to_nat (list_limit_items self))%nat ->
  In key (objects st) ->
  startswith (output_folder self fp iw ih) key = true ->
  endswith "/" key = false ->
  In key (listed self fp iw ih st).
Proof.
  intros N L I P E. apply no_fault_4 in N as [F1 [F2 [F3 F4]]].
  unfold listed. fold (output_folder self fp iw ih).
  set (f := output_folder self fp iw ih) in *.
  assert (K : forall st1,
            hd false (faults st1) = false ->
            hd false (tl (faults st1)) = false ->
            (length (objects st1) <= Z.to_nat (list_limit_items self))%nat ->
            In key (objects st1) ->
            In key (fst (get_files self f st1))).
  { intros st1 G1 G2 L1 I1. rewrite get_files_all; try assumption.
    - apply filter_In. split; [exact I1|]. now rewrite P, E.
    - etransitivity; [apply filter_length_le | exact L1]. }
  destruct (existsb (startswith f) (List.filter (startswith f) (objects st)))
    eqn:X.
  - rewrite (ensure_folder_found f st F1 X). apply K; cbn; try assumption. lia.
  - rewrite (ensure_folder_created f st F1 F2 X). apply K; cbn; try assumption.
    + pose proof (length_insert_key (f ++ "/") (objects st)). lia.
    + apply In_insert_key. now right.
Qed.

End CompleteScan.

(** X11: when no request fails and the bucket holds fewer keys than
    [list_limit_items], the counter that [get_save_path] returns is above
    the field of every eligible key of the bucket that lies under the
    output folder, not only of the keys a capped listing shows. Keys and
    templates are texts over the code points below 256. *)
Theorem complete_scan_counter_is_free (self : S3) (fp : string) (iw ih : Z)
    (st : world) (c : Z) (key : string) :
  no_fault 4 st = true ->
  (length (objects st) < Z.to_nat (list_limit_items self))%nat ->
  returned_counter (get_save_path self fp iw ih st) = Some c ->
  In key (objects st) ->
  startswith (output_folder self fp iw ih) key = true ->
  endswith "/" key = false ->
  eligible (base_name fp iw ih) (map_filename (resolved fp iw ih) key)
    = Ok true ->
  (fst (map_filename (resolved fp iw ih) key) < c)%Z.
Proof.
  intros N L C I P M E.
  pose proof (listed_complete self fp iw ih st key N L I P M) as J.
  rewrite get_save_path_counter in C.
  destruct (scan _ _ _) as [c'|e] eqn:S; [|discriminate].
  injection C as <-. apply scan_exact in S as [U _]. now apply U.
Qed.

(** X11 on a bucket of three keys with a limit of 100. *)
Lemma complete_scan_counter_is_free_witness :
  (fst (map_filename "img" "img_00012_.png") < 13)%Z.
Proof.
  apply (complete_scan_counter_is_free (mkS3 "" 100) "img" 0 0
           (quiet ["img_00003_.png"; "img_00012_.png"; "other.txt"]) 13
           "img_00012_.png"); try reflexivity.
  - cbn. lia.
  - right. now left.
Defined.

(** X12: when no eligible listed key has a negative field, the counter
    that [get_save_path] returns is at least 1. Keys and templates are
    texts over the code points below 256. *)
Theorem counter_at_least_one_without_negative_field (self : S3) (fp : string)
    (iw ih : Z) (st : world) (c : Z) :
  (forall key, In key (listed self fp iw ih st) ->
     eligible (base_name fp iw ih) (map_filename (resolved fp iw ih) key)
       = Ok true ->
     (0 <= fst (map_filename (resolved fp iw ih) key))%Z) ->
  returned_counter (get_save_path self fp iw ih st) = Some c ->
  (1 <= c)%Z.
Proof.
  intros H. rewrite get_save_path_counter.
  destruct (scan _ _ _) as [c'|e] eqn:S; [|discriminate].
  intros [= <-]. now apply (scan_at_least_one _ _ _ _ H).
Qed.

(** X12 on a bucket with a malformed key and the output 3. *)
Lemma counter_at_least_one_without_negative_field_witness : (1 <= 4)%Z.
Proof.
  apply (counter_at_least_one_without_negative_field (mkS3 "" 100) "img" 0 0
           (quiet ["img_00003_.png"; "img_abc_.png"]) 4); [|reflexivity].
  intros key [<-|[<-|[]]] _; vm_compute; discriminate.
Defined.

(** ** Further properties: the construction of the client *)

Section InitFacts.

Lemma ensure_folder_faults (f : string) (st : world) :
  faults (ensure_folder f st) = tl (faults st) \/
  faults (ensure_folder f st) = tl (tl (faults st)).
Proof.
  unfold ensure_folder.
  destruct (does_folder_exist_cases f st) as [[_ ->]|[_ ->]]; cbn.
  - match goal with |- context [create_folder f ?w] =>
      destruct (create_folder_cases f w) as [[_ ->]|[_ ->]] end;
      cbn; now right.
  - destruct (existsb _ _); cbn; [now left|].
    match goal with |- context [create_folder f ?w] =>
      destruct (create_folder_cases f w) as [[_ ->]|[_ ->]] end;
      cbn; now right.
Qed.

Lemma ensure_folder_keeps (f : string) (st : world) (k : string) :
  In k (objects st) -> In k (objects (ensure_folder f st)).
Proof.
  intros I. destruct (ensure_folder_effect f st) as [[-> _]|[-> _]];
    [exact I | apply In_insert_key; now right].
Qed.

(** After a provisioning whose requests do not fail, the bucket holds a
    key under the folder. *)
Lemma ensure_folder_exists (f : string) (st : world) :
  hd false (faults st) = false -> hd false (tl (faults st)) = false ->
  exists key, In key (objects (ensure_folder f st)) /\ startswith f key = true.
Proof.
  intros F1 F2.
  destruct (existsb (startswith f) (List.filter (startswith f) (objects st)))
    eqn:E.
  - rewrite (ensure_folder_found f st F1 E). cbn.
    now apply existsb_filter_iff in E.
  - rewrite (ensure_folder_created f st F1 F2 E). cbn.
    exists (f ++ "/"). split; [apply insert_key_In | apply prefix_append].
Qed.

Lemma init_cases (env : environ) (st : world) :
  (exists v e, LIST_LIMIT_ITEMS env = Some v /\ int_of_text v = Raise e /\
     init env st = (Raise e, st)) \/
  (exists n,
     match LIST_LIMIT_ITEMS env with
     | Some v => int_of_text v
     | None => Ok 100%Z
     end = Ok n /\
     init env st =
     (Ok (mkInstance (mkS3 (getenv (S3_OUTPUT_DIR env) "") n)
            (getenv (S3_INPUT_DIR env) "")),
      let st1 := if negb (getenv (S3_INPUT_DIR env) "" =? "")
                 then ensure_folder (getenv (S3_INPUT_DIR env) "") st
                 else st in
      if negb (getenv (S3_OUTPUT_DIR env) "" =? "")
      then ensure_folder (getenv (S3_OUTPUT_DIR env) "") st1
      else st1)).
Proof.
  unfold init. destruct (LIST_LIMIT_ITEMS env) as [v|].
  - destruct (int_of_text v) as [n|e] eqn:E.
    + right. exists n. now split.
    + left. exists v, e. now repeat split.
  - right. exists 100%Z. now split.
Qed.

End InitFacts.

(** X13: [get_s3_instance] returns [None] exactly when [LIST_LIMIT_ITEMS]
    is set to a text that [int] rejects; the store is then left untouched,
    and [INPUT_TYPES] of the node, given that [None], ends with an
    [AttributeError]. When the variable is not set the limit is 100. The
    value of the variable is a text over the code points below 256;
    [int_of_text] is [int()] on such a text. *)
Theorem get_s3_instance_fails_on_limit_only (env : environ) (st : world) :
  (fst (get_s3_instance env st) = None <->
   exists v e, LIST_LIMIT_ITEMS env = Some v /\ int_of_text v = Raise e) /\
  (fst (get_s3_instance env st) = None ->
   snd (get_s3_instance env st) = st /\
   fst (INPUT_TYPES (fst (get_s3_instance env st))
          (snd (get_s3_instance env st))) = Fails AttributeError) /\
  (LIST_LIMIT_ITEMS env = None ->
   exists inst, fst (get_s3_instance env st) = Some inst /\
     list_limit_items (self_of inst) = 100%Z).
Proof.
  unfold get_s3_instance.
  destruct (init_cases env st) as [[v [e [L [E ->]]]]|[n [E ->]]]; cbn.
  - split; [split; [intros _; now exists v, e | reflexivity]|].
    split; [now split | congruence].
  - split; [split; [discriminate|]|].
    + intros [v [e [L R]]]. rewrite L in E. congruence.
    + split; [discriminate|]. intros L. rewrite L in E. injection E as <-.
      eexists. split; reflexivity.
Qed.

(** X13 with the limit set to a word. *)
Lemma get_s3_instance_fails_on_limit_only_witness :
  snd (get_s3_instance (mkEnviron (Some "in") (Some "out") (Some "many"))
         (quiet ["a.png"])) = quiet ["a.png"].
Proof.
  apply (proj1 (proj2 (get_s3_instance_fails_on_limit_only
           (mkEnviron (Some "in") (Some "out") (Some "many"))
           (quiet ["a.png"])))).
  reflexivity.
Defined.

(** X14: when [get_s3_instance] returns an instance and no request fails,
    the bucket afterwards holds a key under the input folder and one under
    the output folder, for each of the two that is configured; no key is
    removed; and with neither folder configured the store is not
    touched. *)
Theorem get_s3_instance_provisions (env : environ) (st : world)
    (inst : S3_instance) :
  no_fault 4 st = true ->
  fst (get_s3_instance env st) = Some inst ->
  (input_dir inst <> "" ->
   exists key, In key (objects (snd (get_s3_instance env st))) /\
     startswith (input_dir inst) key = true) /\
  (output_dir (self_of inst) <> "" ->
   exists key, In key (objects (snd (get_s3_instance env st))) /\
     startswith (output_dir (self_of inst)) key = true) /\
  (forall k, In k (objects st) ->
     In k (objects (snd (get_s3_instance env st)))) /\
  (input_dir inst = "" -> output_dir (self_of inst) = "" ->
   snd (get_s3_instance env st) = st).
Proof.
  intros N. apply no_fault_4 in N as [F1 [F2 [F3 F4]]].
  unfold get_s3_instance.
  destruct (init_cases env st) as [[v [e [L [E ->]]]]|[n [E ->]]]; cbn;
    [discriminate|].
  intros [= <-]. cbn.
  set (i := getenv (S3_INPUT_DIR env) "").
  set (o := getenv (S3_OUTPUT_DIR env) "").
  destruct (String.eqb_spec i "") as [Ei|Ei];
    destruct (String.eqb_spec o "") as [Eo|Eo]; cbn;
    repeat split; try congruence; try (intros; assumption).
  - intros _. now apply ensure_folder_exists.
  - intros k I. now apply ensure_folder_keeps.
  - intros _. now apply ensure_folder_exists.
  - intros k I. now apply ensure_folder_keeps.
  - intros _. destruct (ensure_folder_exists i st F1 F2) as [key [I P]].
    exists key. split; [now apply ensure_folder_keeps | exact P].
  - intros _. apply ensure_folder_exists.
    + destruct (ensure_folder_faults i st) as [-> | ->]; assumption.
    + destruct (ensure_folder_faults i st) as [-> | ->]; assumption.
  - intros k I. now do 2 apply ensure_folder_keeps.
Qed.

(** X14 with both folders configured on an empty bucket. *)
Lemma get_s3_instance_provisions_witness :
  exists key,
    In key (objects (snd (get_s3_instance
                            (mkEnviron (Some "in") (Some "out") None)
                            (quiet [])))) /\
    startswith "in" key = true.
Proof.
  apply (proj1 (get_s3_instance_provisions
           (mkEnviron (Some "in") (Some "out") None) (quiet [])
           (mkInstance (mkS3 "out" 100) "in") eq_refl eq_refl)).
  discriminate.
Defined.

(** ** Further properties: the node [LoadImageS3] *)

Section SortedFacts.

Lemma insert_str_perm (x : string) (l : list string) :
  Permutation (x :: l) (insert_str x l).
Proof.
  induction l as [|y ys IH]; cbn; [apply Permutation_refl|].
  destruct (String.leb x y); [apply Permutation_refl|].
  eapply perm_trans; [apply perm_swap | now apply perm_skip].
Qed.

Lemma sorted_perm (l : list string) : Permutation l (sorted l).
Proof.
  induction l as [|x l IH]; cbn; [constructor|].
  eapply perm_trans; [apply perm_skip, IH | apply insert_str_perm].
Qed.

Lemma leb_false_flip (x y : string) :
  String.leb x y = false -> String.leb y x = true.
Proof.
  intros H. destruct (String.leb_total x y) as [T|T]; [congruence | exact T].
Qed.

Lemma ascending_insert (x : string) (l : list string) :
  ascending l = true -> ascending (insert_str x l) = true.
Proof.
  induction l as [|y ys IH]; intros A; [reflexivity|].
  cbn [insert_str]. destruct (String.leb x y) eqn:L.
  - cbn [ascending]. now rewrite L.
  - apply leb_false_flip in L.
    destruct ys as [|z zs].
    + cbn. now rewrite L.
    + cbn [ascending] in A. apply andb_true_iff in A as [Y A].
      specialize (IH A). cbn [insert_str] in IH |- *.
      destruct (String.leb x z); cbn [ascending] in IH |- *.
      * now rewrite L, IH.
      * now rewrite Y, IH.
Qed.

Lemma sorted_ascending (l : list string) : ascending (sorted l) = true.
Proof.
  induction l as [|x l IH]; [reflexivity|]. cbn. now apply ascending_insert.
Qed.

End SortedFacts.

(** X15: with an instance, [INPUT_TYPES] offers the keys that [get_files]
    lists under the input folder, each once per listing and in ascending
    order: every choice is a key of the bucket that starts with the input
    folder and is no folder marker. Without an instance it ends with an
    [AttributeError]. *)
Theorem INPUT_TYPES_choices (inst : S3_instance) (st : world) :
  (exists choices,
     fst (INPUT_TYPES (Some inst) st) = Done choices /\
     ascending choices = true /\
     Permutation choices
       (fst (get_files (self_of inst) (input_dir inst) st)) /\
     forall k, In k choices ->
       In k (objects st) /\ startswith (input_dir inst) k = true /\
       endswith "/" k = false) /\
  fst (INPUT_TYPES None st) = Fails AttributeError.
Proof.
  split; [|reflexivity]. unfold INPUT_TYPES.
  pose proof (get_files_In (self_of inst) (input_dir inst) st) as G.
  destruct (get_files (self_of inst) (input_dir inst) st) as [files st'].
  cbn in *. exists (sorted files). split; [reflexivity|].
  split; [apply sorted_ascending|].
  split; [apply Permutation_sym, sorted_perm|].
  intros k I. apply (Permutation_in _ (Permutation_sym (sorted_perm files))) in I.
  destruct (G k I) as [P [E O]]. now repeat split.
Qed.

(** X15 on a bucket with two images and the marker under [in]. *)
Lemma INPUT_TYPES_choices_witness :
  In "in/a.png" ["in/b.png"; "in/"; "in/a.png"; "out/x.png"] /\
  startswith "in" "in/a.png" = true /\ endswith "/" "in/a.png" = false.
Proof.
  destruct (proj1 (INPUT_TYPES_choices (mkInstance (mkS3 "out" 100) "in")
              (quiet ["in/b.png"; "in/"; "in/a.png"; "out/x.png"])))
    as [choices [E [_ [_ H]]]].
  apply H. cbn in E. injection E as <-. now left.
Defined.

Section TransferFacts.

Lemma has_char_rfind (c : ascii) (p : string) :
  has_char c p = false -> rfind_succ c p = 0%nat.
Proof.
  induction p as [|a p IH]; [reflexivity|]. cbn [has_char rfind_succ].
  intros H. apply orb_false_iff in H as [Ha H]. now rewrite (IH H), Ha.
Qed.

(** A path has an empty directory part exactly when it holds no [/]. *)
Lemma dirname_nil_iff (p : string) :
  dirname p = "" <-> has_char "/" p = false.
Proof.
  split.
  - intros H. pose proof (basename_no_sep p) as B.
    now rewrite (dirname_nil p H) in B.
  - intros H. unfold dirname. rewrite (has_char_rfind _ _ H).
    now destruct p.
Qed.

Lemma existsb_eqb_In (k : string) (l : list string) :
  existsb (String.eqb k) l = true <-> In k l.
Proof.
  split.
  - intros H. apply existsb_exists in H as [x [I E]].
    apply String.eqb_eq in E. now subst x.
  - intros I. apply existsb_exists. exists k.
    split; [exact I | apply String.eqb_refl].
Qed.

Lemma existsb_eqb_not_In (k : string) (l : list string) :
  existsb (String.eqb k) l = false <-> ~ In k l.
Proof.
  rewrite <- existsb_eqb_In. now destruct (existsb _ l).
Qed.

Lemma has_char_dirname (p : string) :
  has_char "/" p = true -> (dirname p =? "") = false.
Proof.
  intros H. apply String.eqb_neq. intros D.
  apply dirname_nil_iff in D. congruence.
Qed.

Lemma no_disk_fault_one (m : machine) :
  no_disk_fault 1 m = true -> hd false (disk_faults m) = false.
Proof.
  unfold no_disk_fault. destruct (disk_faults m) as [|[|] l];
    [reflexivity | discriminate | reflexivity].
Qed.

Lemma no_disk_fault_two (m : machine) :
  no_disk_fault 2 m = true ->
  hd false (disk_faults m) = false /\
  hd false (tl (disk_faults m)) = false.
Proof.
  unfold no_disk_fault.
  destruct (disk_faults m) as [|[|] [|[|] l]]; cbn;
    try discriminate; now split.
Qed.

(** Closes the conjuncts of one case of a transfer. *)
Ltac pick_disjunct :=
  first [assumption | reflexivity | left; pick_disjunct | right; pick_disjunct].

Ltac transfer_case :=
  repeat match goal with
         | |- _ /\ _ => split
         end;
  try reflexivity; try assumption; try discriminate; try pick_disjunct.

(** [download_file] case by case: the empty directory name, a directory
    that cannot be made, a transfer that fails, a transfer that succeeds. *)
Lemma download_file_cases (s3_path local_path : string) (m : machine) :
  (has_char "/" local_path = false /\
   download_file s3_path local_path m = (Fails FileNotFoundError, m)) \/
  (has_char "/" local_path = true /\
   path_exists (dirname local_path) m = false /\
   hd false (disk_faults m) = true /\
   fst (download_file s3_path local_path m) = Fails OSError /\
   store (snd (download_file s3_path local_path m)) = store m) \/
  (has_char "/" local_path = true /\
   (path_exists (dirname local_path) m = false ->
    hd false (disk_faults m) = false) /\
   (hd false (faults (store m)) = true \/ s3_path = "" \/
    ~ In s3_path (objects (store m)) \/
    unwritable local_path m = true \/ write_fault local_path m = true) /\
   fst (download_file s3_path local_path m) = Done None /\
   objects (store (snd (download_file s3_path local_path m)))
     = objects (store m)) \/
  (has_char "/" local_path = true /\
   (path_exists (dirname local_path) m = false ->
    hd false (disk_faults m) = false) /\
   hd false (faults (store m)) = false /\ s3_path <> "" /\
   In s3_path (objects (store m)) /\
   unwritable local_path m = false /\ write_fault local_path m = false /\
   fst (download_file s3_path local_path m) = Done (Some local_path) /\
   objects (store (snd (download_file s3_path local_path m)))
     = objects (store m) /\
   In local_path (local_files (snd (download_file s3_path local_path m)))).
Proof.
  destruct (has_char "/" local_path) eqn:S.
  2:{ left. split; [reflexivity|]. apply dirname_nil_iff in S.
      unfold download_file. rewrite S. reflexivity. }
  right. pose proof (has_char_dirname _ S) as D.
  unfold download_file, write_fault, prepared, makedirs, disk_op, with_store.
  rewrite D.
  destruct (path_exists (dirname local_path) m) eqn:P; cbn [negb].
  - right. rewrite request_eq. cbn [store objects disk_faults local_files].
    destruct (hd false (faults (store m))) eqn:F; cbn [orb];
      [left; transfer_case|].
    destruct (String.eqb_spec s3_path "") as [E|E]; cbn [orb];
      [left; transfer_case|].
    destruct (existsb (String.eqb s3_path) (objects (store m))) eqn:I;
      cbn [negb];
      [apply existsb_eqb_In in I
      |apply existsb_eqb_not_In in I; left; transfer_case].
    destruct (unwritable local_path m) eqn:U; [left; transfer_case|].
    destruct (hd false (disk_faults m)) eqn:W; [left; transfer_case|].
    right. transfer_case.
  - destruct (hd false (disk_faults m)) eqn:M; [left; now repeat split|].
    right. rewrite request_eq. cbn [store objects disk_faults local_files].
    destruct (hd false (faults (store m))) eqn:F; cbn [orb];
      [left; transfer_case|].
    destruct (String.eqb_spec s3_path "") as [E|E]; cbn [orb];
      [left; transfer_case|].
    destruct (existsb (String.eqb s3_path) (objects (store m))) eqn:I;
      cbn [negb];
      [apply existsb_eqb_In in I
      |apply existsb_eqb_not_In in I; left; transfer_case].
    destruct (unwritable local_path m) eqn:U; [left; transfer_case|].
    destruct (hd false (tl (disk_faults m))) eqn:W; [left; transfer_case|].
    right. transfer_case.
Qed.

(** Without a fault among the next two operations on the disk, the write
    of [download_file] is not hit by one. *)
Lemma write_fault_none (local_path : string) (m : machine) :
  no_disk_fault 2 m = true -> write_fault local_path m = false.
Proof.
  intros H. apply no_disk_fault_two in H as [H1 H2].
  unfold write_fault, prepared.
  now destruct (path_exists (dirname local_path) m).
Qed.

(** [upload_file] case by case: no regular file to send, a transfer that
    fails, a removal that fails, a transfer that succeeds. *)
Lemma upload_file_cases (local_path s3_path : string) (move_file : bool)
    (m : machine) :
  (~ In local_path (local_files m) /\
   upload_file local_path s3_path move_file m = (None, m)) \/
  (In local_path (local_files m) /\
   (hd false (disk_faults m) = true \/
    hd false (faults (store m)) = true \/ s3_path = "") /\
   fst (upload_file local_path s3_path move_file m) = None /\
   objects (store (snd (upload_file local_path s3_path move_file m)))
     = objects (store m) /\
   local_files (snd (upload_file local_path s3_path move_file m))
     = local_files m) \/
  (In local_path (local_files m) /\
   hd false (disk_faults m) = false /\
   hd false (faults (store m)) = false /\ s3_path <> "" /\
   move_file = true /\ hd false (tl (disk_faults m)) = true /\
   fst (upload_file local_path s3_path move_file m) = None /\
   objects (store (snd (upload_file local_path s3_path move_file m)))
     = insert_key s3_path (objects (store m)) /\
   local_files (snd (upload_file local_path s3_path move_file m))
     = local_files m) \/
  (In local_path (local_files m) /\
   hd false (disk_faults m) = false /\
   hd false (faults (store m)) = false /\ s3_path <> "" /\
   (move_file = true -> hd false (tl (disk_faults m)) = false) /\
   fst (upload_file local_path s3_path move_file m) = Some s3_path /\
   objects (store (snd (upload_file local_path s3_path move_file m)))
     = insert_key s3_path (objects (store m)) /\
   local_files (snd (upload_file local_path s3_path move_file m))
     = if move_file
       then List.filter (fun p => negb (p =? local_path)) (local_files m)
       else local_files m).
Proof.
  unfold upload_file, disk_op, with_store.
  destruct (existsb (String.eqb local_path) (local_files m)) eqn:I;
    cbn [negb];
    [apply existsb_eqb_In in I
    |apply existsb_eqb_not_In in I; left; now split].
  right.
  destruct (hd false (disk_faults m)) eqn:R; [left; transfer_case|].
  cbn [store]. rewrite request_eq.
  cbn [store objects disk_faults local_files].
  destruct (hd false (faults (store m))) eqn:F; cbn [orb];
    [left; transfer_case|].
  destruct (String.eqb_spec s3_path "") as [E|E]; cbn [orb];
    [left; transfer_case|].
  right. destruct move_file.
  - cbn [store objects disk_faults local_files].
    destruct (hd false (tl (disk_faults m))) eqn:W.
    + left. transfer_case.
    + right. transfer_case.
  - right. transfer_case.
Qed.

End TransferFacts.

(** X16: [download_file] never changes the bucket. Given a local path
    without any [/] it raises [FileNotFoundError] (from [os.makedirs] of
    the empty directory name, outside its [try]) and touches nothing.
    When it returns a path, the path is the local path given, the request
    did not fail, the key is not empty and is in the bucket, the local
    path could be written as a regular file, and that file is then on the
    disk. Given a local path with a [/]: without a fault of the disk
    these conditions are enough for the path to be returned; and when the
    directory could be made, a failing request, an empty key, a key that
    is not in the bucket, or a local path that cannot be written (one
    that ends in [/], one that is a directory) gives [None]. *)
Theorem download_file_outcome (s3_path local_path : string) (m : machine) :
  objects (store (snd (download_file s3_path local_path m)))
    = objects (store m) /\
  (has_char "/" local_path = false ->
   download_file s3_path local_path m = (Fails FileNotFoundError, m)) /\
  (forall p, fst (download_file s3_path local_path m) = Done (Some p) ->
     p = local_path /\
     hd false (faults (store m)) = false /\
     s3_path <> "" /\ In s3_path (objects (store m)) /\
     unwritable local_path m = false /\
     In local_path
        (local_files (snd (download_file s3_path local_path m)))) /\
  (has_char "/" local_path = true ->
   no_disk_fault 2 m = true ->
   hd false (faults (store m)) = false ->
   s3_path <> "" -> In s3_path (objects (store m)) ->
   unwritable local_path m = false ->
   fst (download_file s3_path local_path m) = Done (Some local_path)) /\
  (has_char "/" local_path = true ->
   no_disk_fault 1 m = true ->
   hd false (faults (store m)) = true \/ s3_path = "" \/
   ~ In s3_path (objects (store m)) \/ unwritable local_path m = true ->
   fst (download_file s3_path local_path m) = Done None).
Proof.
  destruct (download_file_cases s3_path local_path m)
    as [[S E]|[[S [P [M [E O]]]]|[[S [M [C [E O]]]]
       |[S [M [F [K [I [U [W [E [O L]]]]]]]]]]]].
  - rewrite E. split; [reflexivity|]. split; [reflexivity|].
    split; [discriminate|]. split; congruence.
  - rewrite E, O. split; [reflexivity|]. split; [congruence|].
    split; [discriminate|]. split.
    + intros _ N. apply no_disk_fault_two in N as [N _]. congruence.
    + intros _ N. apply no_disk_fault_one in N. congruence.
  - rewrite E, O. split; [reflexivity|]. split; [congruence|].
    split; [discriminate|]. split; [|reflexivity].
    intros _ N F K I U. pose proof (write_fault_none local_path m N) as W.
    destruct C as [C|[C|[C|[C|C]]]]; congruence.
  - rewrite E, O. split; [reflexivity|]. split; [congruence|].
    split; [intros p [= <-]; now repeat split|].
    split; [reflexivity|].
    intros _ _ [C|[C|[C|C]]]; congruence.
Qed.

(** X16 on a bare file name, on a path under [input], and on a local path
    that ends in [/]. *)
Lemma download_file_outcome_witness :
  download_file "in/a.png" "a.png" (mkMachine (quiet ["in/a.png"]) [] [] [])
    = (Fails FileNotFoundError, mkMachine (quiet ["in/a.png"]) [] [] []) /\
  fst (download_file "in/a.png" "input/in/a.png"
         (mkMachine (quiet ["in/a.png"]) [] [] []))
    = Done (Some "input/in/a.png") /\
  fst (download_file "in/a.png" "x/"
         (mkMachine (quiet ["in/a.png"]) [] [] [])) = Done None.
Proof.
  split; [|split].
  - apply (proj1 (proj2 (download_file_outcome "in/a.png" "a.png"
             (mkMachine (quiet ["in/a.png"]) [] [] [])))). reflexivity.
  - apply (proj1 (proj2 (proj2 (proj2 (download_file_outcome "in/a.png"
             "input/in/a.png" (mkMachine (quiet ["in/a.png"]) [] [] []))))));
      try reflexivity; [discriminate | now left].
  - apply (proj2 (proj2 (proj2 (proj2 (download_file_outcome "in/a.png"
             "x/" (mkMachine (quiet ["in/a.png"]) [] [] []))))));
      try reflexivity. right; right; right. reflexivity.
Defined.

(** X17: the download of [load_image] never changes the bucket. When it
    yields a path, the path is [input/] followed by the name as given, not
    stripped; the request did not fail; the name stripped of surrounding
    white space is not empty and is in the bucket; and the name does not
    end in [/]. When the directory could be made, the only other outcome
    is the exception [Failed to download object from S3]: the empty
    directory name of [download_file] cannot arise, since the local path
    starts with [input/]. Without a fault of the disk or of the request, a
    name whose stripped form is a key of the bucket and whose local path
    can be written yields the path. *)
Theorem load_image_path_outcome (inst : S3_instance) (image : string)
    (m : machine) :
  objects (store (snd (load_image_path (Some inst) image m)))
    = objects (store m) /\
  (forall p, fst (load_image_path (Some inst) image m) = Done p ->
     p = "input/" ++ image /\
     hd false (faults (store m)) = false /\
     strip image <> "" /\
     In (strip image) (objects (store m)) /\
     endswith "/" ("input/" ++ image) = false) /\
  (no_disk_fault 1 m = true ->
   fst (load_image_path (Some inst) image m) = Done ("input/" ++ image) \/
   fst (load_image_path (Some inst) image m)
     = Fails (Failure "Failed to download object from S3")) /\
  (no_disk_fault 2 m = true ->
   hd false (faults (store m)) = false ->
   strip image <> "" ->
   In (strip image) (objects (store m)) ->
   unwritable ("input/" ++ image) m = false ->
   fst (load_image_path (Some inst) image m) = Done ("input/" ++ image)).
Proof.
  unfold load_image_path.
  destruct (download_file_cases (strip image) ("input/" ++ image) m)
    as [[S E]|[[S [P [M [E O]]]]|[[S [M [C [E O]]]]
       |[S [M [F [K [I [U [W [E [O L]]]]]]]]]]]].
  - discriminate S.
  - destruct (download_file _ _ m) as [r m'] eqn:D. cbn [fst snd] in E, O. subst r.
    cbn [fst snd]. rewrite O. split; [reflexivity|]. split; [discriminate|]. split.
    + intros N. apply no_disk_fault_one in N. congruence.
    + intros N. apply no_disk_fault_two in N as [N _]. congruence.
  - destruct (download_file _ _ m) as [r m'] eqn:D. cbn [fst snd] in E, O. subst r.
    cbn [fst snd]. split; [exact O|]. split; [discriminate|].
    split; [intros _; now right|].
    intros N F K I U.
    pose proof (write_fault_none ("input/" ++ image) m N) as W.
    destruct C as [C|[C|[C|[C|C]]]]; congruence.
  - destruct (download_file _ _ m) as [r m'] eqn:D. cbn [fst snd] in E, O. subst r.
    cbn [fst snd]. split; [exact O|].
    assert (Z : endswith "/" ("input/" ++ image) = false).
    { unfold unwritable in U. apply orb_false_iff in U as [U _].
      now apply orb_false_iff in U as [U _]. }
    split; [intros p [= <-]; now repeat split|].
    split; [intros _; now left | reflexivity].
Qed.

(** X17 on a name with a trailing blank: the key asked for is the name
    without it, the local path keeps it. *)
Lemma load_image_path_outcome_witness :
  fst (load_image_path (Some (mkInstance (mkS3 "out" 100) "in")) "in/a.png "
         (mkMachine (quiet ["in/a.png"]) [] [] [])) = Done "input/in/a.png ".
Proof.
  apply (proj2 (proj2 (proj2 (load_image_path_outcome
           (mkInstance (mkS3 "out" 100) "in") "in/a.png "
           (mkMachine (quiet ["in/a.png"]) [] [] []))))); try reflexivity.
  - discriminate.
  - now left.
Defined.

(** X18: when [upload_file] returns a key, it is the key given, not
    empty and now in the bucket; the local path was a regular file and the
    request did not fail. Without a fault of the disk these conditions are
    enough for the key to be returned. A local file disappears only when
    [move_file] is set, the key is returned and the key is in the bucket;
    no local file appears. With [move_file] unset, a [None] leaves the
    bucket as it was; with [move_file] set, a failing [os.remove] gives
    [None] although the key is in the bucket. *)
Theorem upload_file_outcome (local_path s3_path : string) (move_file : bool)
    (m : machine) :
  (forall k, fst (upload_file local_path s3_path move_file m) = Some k ->
     k = s3_path /\ s3_path <> "" /\
     In local_path (local_files m) /\
     hd false (faults (store m)) = false /\
     In s3_path (objects (store (snd (upload_file local_path s3_path
                                        move_file m))))) /\
  (In local_path (local_files m) ->
   no_disk_fault 2 m = true ->
   hd false (faults (store m)) = false ->
   s3_path <> "" ->
   fst (upload_file local_path s3_path move_file m) = Some s3_path) /\
  (In local_path (local_files m) ->
   ~ In local_path
       (local_files (snd (upload_file local_path s3_path move_file m))) ->
   move_file = true /\
   fst (upload_file local_path s3_path move_file m) = Some s3_path /\
   In s3_path (objects (store (snd (upload_file local_path s3_path
                                      move_file m))))) /\
  (forall p,
     In p (local_files (snd (upload_file local_path s3_path move_file m))) ->
     In p (local_files m)) /\
  (fst (upload_file local_path s3_path move_file m) = None ->
   objects (store (snd (upload_file local_path s3_path move_file m)))
     <> objects (store m) ->
   move_file = true /\
   hd false (tl (disk_faults m)) = true /\
   In s3_path (objects (store (snd (upload_file local_path s3_path
                                      move_file m))))).
Proof.
  destruct (upload_file_cases local_path s3_path move_file m)
    as [[I E]|[[I [C [E [O L]]]]|[[I [R [F [K [M [W [E [O L]]]]]]]]
       |[I [R [F [K [W [E [O L]]]]]]]]]].
  - rewrite E. cbn. split; [discriminate|].
    split; [intros J; contradiction|].
    split; [intros J N; contradiction|].
    split; [trivial | intros _ N; now contradiction N].
  - rewrite E, O, L. split; [discriminate|]. split.
    { intros _ N. apply no_disk_fault_two in N as [N _].
      destruct C as [C|[C|C]]; congruence. }
    split; [intros J N; contradiction|].
    split; [trivial | intros _ N; now contradiction N].
  - rewrite E, O, L. split; [discriminate|]. split.
    { intros _ N. apply no_disk_fault_two in N as [_ N]. congruence. }
    split; [intros J N; contradiction|].
    split; [trivial|]. intros _ _.
    split; [exact M|]. split; [exact W | apply insert_key_In].
  - rewrite E, O, L. split.
    { intros k [= <-]. repeat split; try assumption. apply insert_key_In. }
    split; [reflexivity|]. split.
    { intros J N. destruct move_file; [|contradiction].
      split; [reflexivity|]. split; [reflexivity | apply insert_key_In]. }
    split; [|discriminate].
    intros p J. destruct move_file; [|exact J]. now apply filter_In in J.
Qed.

(** X18 on a local file that is moved to the bucket. *)
Lemma upload_file_outcome_witness :
  fst (upload_file "out/a.png" "output/a.png" true
         (mkMachine (quiet []) ["out/a.png"] [] [])) = Some "output/a.png".
Proof.
  apply (proj1 (proj2 (upload_file_outcome "out/a.png" "output/a.png" true
           (mkMachine (quiet []) ["out/a.png"] [] []))));
    try reflexivity; [now left | discriminate].
Defined.

(** A removal that fails after the transfer: [None], with the key in the
    bucket and the local file still on the disk. A directory is not sent. *)
Example upload_file_remove_fails :
  upload_file "out/a.png" "output/a.png" true
    (mkMachine (quiet []) ["out/a.png"] [] [false; true])
  = (None,
     mkMachine (mkWorld ["output/a.png"] [] ["output/a.png"] [])
               ["out/a.png"] [] []) /\
  upload_file "out" "k" true (mkMachine (quiet []) [] ["out"] [])
  = (None, mkMachine (quiet []) [] ["out"] []).
Proof. split; reflexivity. Qed.

(** X19: [map_filename] cuts a key at the length of the base name of the
    template as written, while the filter compares with the base name of
    the normalized template. When the first is shorter than the second, as
    for a template that ends in [/], no key is eligible and the counter
    returned is 1, whatever the bucket holds. *)
Theorem unnormalized_template_counts_one (self : S3) (fp : string)
    (iw ih : Z) (st : world) :
  (len (basename (resolved fp iw ih)) < len (base_name fp iw ih))%nat ->
  (forall key,
     eligible (base_name fp iw ih) (map_filename (resolved fp iw ih) key)
       <> Ok true) /\
  returned_counter (get_save_path self fp iw ih st) = Some 1%Z.
Proof.
  intros L.
  assert (N : forall key,
            eligible (base_name fp iw ih) (map_filename (resolved fp iw ih) key)
              <> Ok true).
  { intros key E. apply eligible_true_iff in E. cbn [snd map_filename] in E.
    apply (f_equal len) in E. rewrite len_take, len_append in E.
    cbn [len String.length] in E. unfold len in *. lia. }
  split; [exact N|].
  rewrite get_save_path_counter, scan_no_eligible; [reflexivity|].
  intros key I.
  destruct (listed_eligible_total _ _ _ _ _ _ I) as [[|] Hb];
    [now destruct (N key) | exact Hb].
Qed.

(** X19 on the template [img/] and a bucket that holds the output 5 of
    [img]. *)
Lemma unnormalized_template_counts_one_witness :
  returned_counter
    (get_save_path (mkS3 "" 100) "img/" 0 0 (quiet ["img_00005_.png"]))
  = Some 1%Z.
Proof.
  apply (proj2 (unnormalized_template_counts_one (mkS3 "" 100) "img/" 0 0
                  (quiet ["img_00005_.png"]) ltac:(cbn; lia))).
Defined.

(** ** Further properties: the folder and the file name join back *)

Section Recompose.

Lemma split_no_sep (c : ascii) (s w : string) :
  In w (split c s) -> has_char c w = false.
Proof.
  revert w. induction s as [|a s IH]; intros w; cbn [split].
  - intros [<-|[]]. reflexivity.
  - destruct (Ascii.eqb a c) eqn:E.
    + intros [<-|I]; [reflexivity | now apply IH].
    + destruct (split c s) as [|x xs].
      * intros [<-|[]]. cbn. now rewrite E.
      * intros [<-|I].
        -- cbn. rewrite E. apply IH. now left.
        -- apply IH. now right.
Qed.

Lemma In_removelast {A : Type} (l : list A) (x : A) :
  In x (removelast l) -> In x l.
Proof.
  induction l as [|y l IH]; [intros []|]. cbn.
  destruct l as [|z l]; [intros []|].
  intros [->|I]; [now left | right; now apply IH].
Qed.

Lemma norm_step_plain (k : nat) (l : list string) (comp : string) :
  Forall plain_comp l -> has_char "/" comp = false ->
  Forall plain_comp (norm_step k l comp).
Proof.
  intros F H. unfold norm_step.
  destruct (String.eqb_spec comp "") as [E|E]; cbn; [exact F|].
  destruct (comp =? "."); [exact F|].
  destruct (_ || _).
  - apply Forall_app. split; [exact F|]. constructor; [now split | constructor].
  - apply Forall_forall. intros x I. apply In_removelast in I.
    now apply (proj1 (Forall_forall _ _) F).
Qed.

Lemma fold_norm_plain (k : nat) (comps acc : list string) :
  Forall plain_comp acc ->
  (forall w, In w comps -> has_char "/" w = false) ->
  Forall plain_comp (fold_left (norm_step k) comps acc).
Proof.
  revert acc. induction comps as [|c comps IH]; intros acc F H; [exact F|].
  cbn. apply IH.
  - apply norm_step_plain; [exact F | apply H; now left].
  - intros w I. apply H. now right.
Qed.

Lemma concat_lead (c : string) (cs : list string) :
  String.concat "/" (c :: cs) = lead (c :: cs) ++ last (c :: cs) "".
Proof.
  revert c. induction cs as [|d cs IH]; intros c; [reflexivity|].
  change (String.concat "/" (c :: d :: cs))
    with (c ++ "/" ++ String.concat "/" (d :: cs)).
  rewrite IH. change (lead (c :: d :: cs)) with (c ++ "/" ++ lead (d :: cs)).
  change (last (c :: d :: cs) "") with (last (d :: cs) "").
  now rewrite !append_assoc.
Qed.

(** [p.rfind('/') + 1] is the length of [p] exactly for [p] empty or
    ending in [/]; such a [p] keeps that mark when a text without [/]
    follows. *)
Lemma rfind_end_append (a c : string) :
  rfind_succ "/" a = len a -> has_char "/" c = false ->
  rfind_succ "/" (a ++ c) = len a.
Proof.
  revert c. induction a as [|x a IH]; intros c H N; cbn [append].
  - now apply has_char_rfind.
  - cbn [rfind_succ len String.length] in H |- *.
    destruct (rfind_succ "/" a) as [|k] eqn:R.
    + destruct (Ascii.eqb x "/") eqn:X; [|discriminate].
      injection H as H. destruct a; [|discriminate].
      cbn [append]. now rewrite (has_char_rfind _ _ N).
    + injection H as H. rewrite (IH c H N). unfold len in *.
      rewrite <- H. reflexivity.
Qed.

Lemma rfind_end_slash (a : string) :
  rfind_succ "/" (a ++ "/") = len (a ++ "/").
Proof.
  induction a as [|x a IH]; [reflexivity|].
  cbn [append rfind_succ len String.length]. unfold len in IH. rewrite IH.
  destruct a; reflexivity.
Qed.

Lemma rstrip_sep_append (y z : string) :
  rstrip_sep (y ++ z) =
  match rstrip_sep z with
  | "" => rstrip_sep y
  | _ => y ++ rstrip_sep z
  end.
Proof.
  induction y as [|c y IH]; cbn [append].
  - now destruct (rstrip_sep z).
  - cbn [rstrip_sep]. rewrite IH. destruct (rstrip_sep z) as [|d r].
    + reflexivity.
    + destruct y; reflexivity.
Qed.

Lemma rstrip_sep_plain (w : string) :
  plain_comp w -> exists d r, rstrip_sep w = String d r /\ rstrip_sep w = w.
Proof.
  intros [N H]. induction w as [|c w IH]; [contradiction|].
  cbn [has_char] in H. apply orb_false_iff in H as [Hc H].
  cbn [rstrip_sep]. destruct w as [|d w].
  - cbn. rewrite Hc. now exists c, "".
  - destruct IH as [d' [r [E E']]]; [discriminate | exact H|].
    rewrite E'. now exists c, (String d w).
Qed.

Lemma plain_not_slash_start (w : string) :
  has_char "/" w = false -> startswith "/" w = false.
Proof.
  destruct w as [|c w]; [reflexivity|]. cbn [has_char]. intros H.
  apply orb_false_iff in H as [H _]. unfold startswith.
  rewrite prefix_cons. rewrite Ascii.eqb_sym, H. reflexivity.
Qed.

End Recompose.

Section RecomposeMain.

Lemma lead_shape (cs : list string) :
  Forall plain_comp cs ->
  lead cs = "" \/ exists m w, lead cs = (m ++ w) ++ "/" /\ plain_comp w.
Proof.
  induction cs as [|c cs IH]; intros F; [now left|].
  inversion F as [|? ? Pc Fcs]; subst.
  destruct cs as [|d cs]; [now left|]. right.
  change (lead (c :: d :: cs)) with (c ++ "/" ++ lead (d :: cs)).
  destruct (IH Fcs) as [-> | [m [w [-> P]]]].
  - exists "", c. now split.
  - exists (c ++ "/" ++ m), w. split; [|exact P].
    now rewrite !append_assoc.
Qed.

Lemma last_plain (c : string) (cs : list string) :
  Forall plain_comp (c :: cs) -> plain_comp (last (c :: cs) "").
Proof.
  intros F. apply (proj1 (Forall_forall _ _) F).
  destruct (exists_last (l := c :: cs)) as [l' [a E]]; [discriminate|].
  rewrite E, last_last. apply in_or_app. right. now left.
Qed.

Lemma rstrip_sep_repeat (j : nat) : rstrip_sep (repeat_sep j) = "".
Proof. induction j as [|j IH]; [reflexivity|]. cbn. now rewrite IH. Qed.

Lemma len_rstrip_sep (z : string) : (len (rstrip_sep z) <= len z)%nat.
Proof.
  induction z as [|c z IH]; [cbn; lia|]. cbn [rstrip_sep].
  destruct (rstrip_sep z) as [|d r].
  - destruct (Ascii.eqb c "/"); unfold len; cbn [String.length]; lia.
  - unfold len in *. cbn [String.length] in *. lia.
Qed.

Lemma rstrip_sep_ends_plain (y w : string) :
  plain_comp w -> rstrip_sep (y ++ w) = y ++ w.
Proof.
  intros P. rewrite rstrip_sep_append.
  destruct (rstrip_sep_plain w P) as [d [r [E E']]].
  rewrite E. now rewrite <- E, E'.
Qed.

Lemma endswith_plain (y w : string) :
  plain_comp w -> endswith "/" (y ++ w) = false.
Proof.
  intros P. destruct (endswith "/" (y ++ w)) eqn:E; [|reflexivity].
  unfold endswith in E. apply andb_true_iff in E as [_ E].
  apply String.eqb_eq in E.
  pose proof (take_drop (len (y ++ w) - len "/") (y ++ w)) as T.
  rewrite E in T.
  pose proof (rstrip_sep_ends_plain y w P) as R. rewrite <- T in R at 1.
  rewrite (rstrip_sep_append _ "/") in R. cbn [rstrip_sep] in R.
  change (if Ascii.eqb "/" "/" then "" else "/") with "" in R.
  apply (f_equal len) in R.
  pose proof (len_rstrip_sep (take (len (y ++ w) - len "/") (y ++ w))) as B.
  rewrite R in B. rewrite <- T in B at 1. rewrite len_append in B.
  cbn [len String.length] in B. unfold len in *. lia.
Qed.

Lemma len_repeat_sep (j : nat) : len (repeat_sep j) = j.
Proof. induction j as [|j IH]; [reflexivity|]. cbn. unfold len in IH. now rewrite IH. Qed.

Lemma join_slashes (k : nat) (l : string) :
  (k <= 2)%nat -> startswith "/" l = false ->
  join (repeat_sep k) l = repeat_sep k ++ l.
Proof.
  intros K S. unfold join. rewrite S.
  assert ((repeat_sep k =? "") || endswith "/" (repeat_sep k) = true) as ->
    by (destruct k as [|[|[|k]]]; [reflexivity.. | lia]).
  reflexivity.
Qed.

(** A path made of at most two leading [/] and plain components joined by
    [/] is what its directory and its base name join to. *)
Lemma join_dirname_basename (k : nat) (cs : list string) :
  (k <= 2)%nat -> Forall plain_comp cs ->
  repeat_sep k ++ String.concat "/" cs <> "" ->
  join (dirname (repeat_sep k ++ String.concat "/" cs))
       (basename (repeat_sep k ++ String.concat "/" cs))
  = repeat_sep k ++ String.concat "/" cs.
Proof.
  intros K F N. destruct cs as [|c cs].
  - destruct k as [|[|[|k]]]; [now destruct N | reflexivity.. | lia].
  - rewrite concat_lead. set (l := last (c :: cs) "").
    assert (Pl : plain_comp l) by now apply last_plain.
    destruct Pl as [Ln Ls].
    set (a := repeat_sep k ++ lead (c :: cs)).
    rewrite <- append_assoc. fold a.
    assert (R : rfind_succ "/" a = len a).
    { subst a. destruct (lead_shape (c :: cs) F) as [-> | [m [w [-> _]]]].
      - rewrite append_nil_r.
        destruct k as [|[|[|k]]]; [reflexivity.. | lia].
      - rewrite <- append_assoc. apply rfind_end_slash. }
    assert (B : basename (a ++ l) = l)
      by (unfold basename; rewrite (rfind_end_append a l R Ls);
          apply drop_append).
    assert (H : take (rfind_succ "/" (a ++ l)) (a ++ l) = a)
      by (rewrite (rfind_end_append a l R Ls); apply take_append).
    rewrite B. unfold dirname. rewrite H.
    pose proof (plain_not_slash_start l Ls) as S.
    subst a. destruct (lead_shape (c :: cs) F) as [E | [m [w [E P]]]];
      rewrite E in *.
    + rewrite append_nil_r, len_repeat_sep, String.eqb_refl.
      cbn [negb andb]. rewrite andb_false_r. now apply join_slashes.
    + set (x := (repeat_sep k ++ m) ++ w).
      assert (X : repeat_sep k ++ (m ++ w) ++ "/" = x ++ "/")
        by (subst x; now rewrite !append_assoc).
      rewrite X.
      assert (Rx : rstrip_sep (x ++ "/") = x).
      { rewrite rstrip_sep_append. cbn [rstrip_sep].
        change (if Ascii.eqb "/" "/" then "" else "/") with "".
        subst x. now apply rstrip_sep_ends_plain. }
      assert (Xn : x <> "").
      { subst x. destruct P as [Wn _]. intros Z.
        apply append_nil_inv in Z as [_ Z]. contradiction. }
      destruct (String.eqb_spec (x ++ "/") "") as [Z|_];
        [apply append_nil_inv in Z as [Z _]; contradiction|].
      destruct (String.eqb_spec (x ++ "/") (repeat_sep (len (x ++ "/"))))
        as [Z|_].
      * rewrite Z in Rx at 1. rewrite rstrip_sep_repeat in Rx. congruence.
      * cbn [negb andb]. rewrite Rx. unfold join. rewrite S.
        apply String.eqb_neq in Xn. rewrite Xn. cbn [orb].
        subst x. rewrite (endswith_plain _ w P).
        now rewrite !append_assoc.
Qed.

End RecomposeMain.

Lemma normpath_recomposes (p : string) :
  join (dirname (normpath p)) (basename (normpath p)) = normpath p.
Proof.
  unfold normpath. destruct (p =? ""); [reflexivity|].
  set (k := if startswith "/" p
            then if startswith "//" p && negb (startswith "///" p)
                 then 2%nat else 1%nat
            else 0%nat).
  assert (K : (k <= 2)%nat)
    by (subst k; destruct (startswith "/" p);
        [destruct (_ && _)|]; lia).
  set (cs := fold_left (norm_step k) (split "/" p) []).
  assert (F : Forall plain_comp cs)
    by (apply fold_norm_plain; [constructor | apply split_no_sep]).
  destruct (String.eqb_spec (repeat_sep k ++ String.concat "/" cs) "")
    as [E|E]; [reflexivity|].
  now apply join_dirname_basename.
Qed.

(** X20: in what [get_save_path] returns, the file name holds no [/], the
    output folder is the output root joined with the subfolder, and the
    subfolder and the file name join back, with [os.path.join], to the
    normalized form of the substituted template. *)
Theorem returned_parts_recompose (self : S3) (fp : string) (iw ih : Z)
    (st : world) (r : save_path) :
  fst (get_save_path self fp iw ih st) = Ok r ->
  has_char "/" (sp_filename r) = false /\
  full_output_folder_s3 r = join (output_dir self) (subfolder r) /\
  sp_filename_prefix r = compute_vars fp iw ih /\
  join (subfolder r) (sp_filename r) = normpath (sp_filename_prefix r).
Proof.
  unfold get_save_path.
  destruct (get_files self _ (ensure_folder _ st)) as [files st']. cbn [fst].
  destruct (scan _ _ files) as [c|e]; cbn [rbind]; [|discriminate].
  intros [= <-]. cbn.
  repeat split; [apply basename_no_sep | apply normpath_recomposes].
Qed.

(** X20 on the template [a/./b//img_%width%]. *)
Lemma returned_parts_recompose_witness :
  join "a/b" "img_512" = normpath "a/./b//img_512".
Proof.
  apply (proj2 (proj2 (proj2 (returned_parts_recompose (mkS3 "out" 100)
           "a/./b//img_%width%" 512 0 (quiet [])
           (mkSavePath "out/a/b" "img_512" 1 "a/b" "a/./b//img_512")
           eq_refl)))).
Defined.
